(** * Financial-calculation engine of tools-simulasikelayakan

    A shallow embedding of [src/utils/financial-calculations.ts] and of the
    interfaces of [src/types/financial.ts].

    Number model.  A TypeScript [number] is an IEEE-754 binary64 value.  The
    engine is embedded twice.

    - Over exact rationals ([number := Q], the top level of this file): the
      arithmetic of the engine is read as exact arithmetic, so rounding,
      overflow to [Infinity] and [NaN] are outside this reading.  It carries
      the properties that say which formula the code evaluates, over which
      entries and in which order, and what happens to the objects of the
      store.  Every division of the engine is either guarded by the code
      ([df !== 0], [currCumulative - prevCumulative !== 0],
      [Math.abs(dNpv) < tolerance]) or divides by a power of [1 + guess] with
      [guess >= -0.99], so [Q]'s total division is never consulted at zero by
      the theorems below.

    - Over binary64 ([Module Double]): the functions whose properties turn on
      rounding, overflow or [NaN] ([calculateDiscountFactors],
      [calculateDiscountedCashFlow], [calculateIRR]) are embedded again on
      Rocq's primitive floats, whose [+], [-], [*], [/], comparisons and
      [abs] are the IEEE-754 operations of JavaScript.  ECMAScript leaves
      [Math.pow] implementation-approximated; it is a parameter [Math_pow]
      of that embedding.

    Loop counters and [projectYears] (an integer by the data model,
    [parseInt] in the page) are embedded as [Z].

    Object model.  [performSensitivityAnalysis] builds its scenarios with
    object spreads and [Array.prototype.map]; objects and arrays are
    references in JavaScript, so this function is embedded over an explicit
    store of objects ([heap]) with allocation, load and store. *)

From Stdlib Require Import ZArith QArith Qabs Qpower Qminmax Lqa Lia List String.
From Stdlib Require Import Floats.
From Stdlib Require Import Sorting.Sorted Sorting.Permutation.
From stdpp Require Import base option list.
Import ListNotations.

Local Open Scope Z_scope.
Local Open Scope Q_scope.

(** ** Numbers *)

Abbreviation number := Q.

(** [Math.pow(base, exponent)]; the engine only ever passes an integer loop
    counter as the exponent. *)
Definition Math_pow (base : number) (exponent : Z) : number := base ^ exponent.

Definition Math_abs (x : number) : number := Qabs x.

Definition Math_max (x y : number) : number := Qmax x y.

(** [x < y] on numbers ([<=] is [Qle_bool], [===] is [Qeq_bool]). *)
Definition Qlt_bool (x y : number) : bool := negb (Qle_bool y x).

(** A loop counter used as a number. *)
Definition of_int (i : Z) : number := inject_Z i.

(** ** The interfaces of [types/financial.ts] *)

(** [CapexItem] and [OpexItem] have the same five fields. *)
Record LineItem : Type := mkLineItem {
  item_id : string;
  item_name : string;
  volume : number;
  item_unit : string;
  price : number
}.

Definition CapexItem : Type := LineItem.
Definition OpexItem : Type := LineItem.

(** A [ProjectData] read by value: the three arrays with their items. *)
Record ProjectData : Type := mkProjectData {
  capexItems : list CapexItem;
  opexCashIn : list OpexItem;
  opexCashOut : list OpexItem;
  projectYears : Z;
  discountRate : number;
  opexInGrowth : number;
  opexOutGrowth : number
}.

Record FinancialMetrics : Type := mkFinancialMetrics {
  npv : number;
  irr : number;
  paybackPeriod : number;
  totalCapex : number;
  yearlyRevenue : number;
  yearlyExpenses : number
}.

Record SensitivityResult : Type := mkSensitivityResult {
  variable : string;
  npvLow : number;
  npvHigh : number;
  range : number
}.

(** ** Loops *)

(** [for (let i = from; i <= to; i++) s = body(i, s)]: the loop runs
    [to - from + 1] times when that is positive, and not at all otherwise. *)
Fixpoint for_upto {S : Type} (fuel : nat) (i to : Z) (body : Z -> S -> S) (s : S) : S :=
  match fuel with
  | O => s
  | Datatypes.S fuel' =>
      if (i <=? to)%Z then for_upto fuel' (i + 1)%Z to body (body i s) else s
  end.

Definition for_range {S : Type} (from to : Z) (body : Z -> S -> S) (s : S) : S :=
  for_upto (Z.to_nat (to - from + 1)) from to body s.

(** ** Line-item aggregation *)

Definition calculateTotal (item : LineItem) : number :=
  volume item * price item.

Definition calculateCapexTotal (capexItems : list CapexItem) : number :=
  fold_left (fun sum item => sum + calculateTotal item) capexItems 0.

Definition calculateYearlyOpexCashIn (opexCashIn : list OpexItem) : number :=
  fold_left (fun sum item => sum + calculateTotal item) opexCashIn 0.

Definition calculateYearlyOpexCashOut (opexCashOut : list OpexItem) : number :=
  fold_left (fun sum item => sum + calculateTotal item) opexCashOut 0.

(** ** Cash-flow projection *)

(** The body of the [try] block; nothing in it throws on a well-typed
    [ProjectData], so the [catch] branch (which returns [[0]]) is never
    taken. *)
Definition calculateNetCashFlow (data : ProjectData) : list number :=
  let capex := calculateCapexTotal (capexItems data) in
  let baseCashIn := calculateYearlyOpexCashIn (opexCashIn data) in
  let baseCashOut := calculateYearlyOpexCashOut (opexCashOut data) in
  let growthIn := opexInGrowth data / 100.0 in
  let growthOut := opexOutGrowth data / 100.0 in
  let cashflows := [- capex] in
  for_range 1 (projectYears data)
    (fun year cashflows =>
       let cashInYear := baseCashIn * Math_pow (1 + growthIn) year in
       let cashOutYear := baseCashOut * Math_pow (1 + growthOut) year in
       let yearlyNet := cashInYear - cashOutYear in
       cashflows ++ [yearlyNet])
    cashflows.

(** ** Discounting *)

Definition calculateDiscountFactors (projectYears : Z) (discountRate : number) : list number :=
  let rate := discountRate / 100 in
  let factors := [1.0] in
  for_range 1 projectYears
    (fun i factors => factors ++ [Math_pow (1 + rate) i])
    factors.

(** [cashflows.map((cf, i) => ...)] from index [i] on.  When
    [discountFactors] is shorter than [cashflows], [discountFactors[i]] is
    [undefined] and [cf / undefined] is [NaN], which is no rational: the
    result is then [None]. *)
Fixpoint discounted_from (i : nat) (cashflows discountFactors : list number)
  : option (list number) :=
  match cashflows with
  | [] => Some []
  | cf :: rest =>
      match nth_error discountFactors i with
      | None => None
      | Some df =>
          match discounted_from (Datatypes.S i) rest discountFactors with
          | None => None
          | Some tl => Some ((if negb (Qeq_bool df 0) then cf / df else 0) :: tl)
          end
      end
  end.

Definition calculateDiscountedCashFlow (cashflows discountFactors : list number)
  : option (list number) :=
  discounted_from 0 cashflows discountFactors.

Definition calculateCumulativeCashFlow (discountedCashflows : list number) : list number :=
  snd (fold_left
         (fun '(total, cumulative) dcf =>
            let total := total + dcf in (total, cumulative ++ [total]))
         discountedCashflows (0, [])).

Definition calculateNPV (discountedCashflows : list number) : number :=
  fold_left (fun sum dcf => sum + dcf) discountedCashflows 0.

(** ** Internal rate of return *)

Definition maxIterations : nat := 100.
Definition tolerance : number := 1e-6.

(** The inner [for j] loop: the pair [(npv, dNpv)] after the entries from
    index [j] on have been accumulated. *)
Fixpoint irr_sums (guess : number) (j : Z) (cashflows : list number)
  (acc : number * number) : number * number :=
  match cashflows with
  | [] => acc
  | cf :: rest =>
      let '(npv, dNpv) := acc in
      irr_sums guess (j + 1)%Z rest
        (npv + cf / Math_pow (1 + guess) j,
         dNpv - of_int j * cf / Math_pow (1 + guess) (j + 1))
  end.

(** The outer loop with [iterations] rounds left. *)
Fixpoint irr_loop (iterations : nat) (cashflows : list number) (guess : number) : number :=
  match iterations with
  | O => guess
  | Datatypes.S iterations' =>
      let '(npv, dNpv) := irr_sums guess 0 cashflows (0, 0) in
      if Qlt_bool (Math_abs npv) tolerance then guess
      else if Qlt_bool (Math_abs dNpv) tolerance then
        irr_loop iterations' cashflows (if Qlt_bool 0 guess then -0.9 else 0.9)
      else
        let guess := guess - npv / dNpv in
        let guess := if Qlt_bool guess (-0.99) then -0.99 else guess in
        let guess := if Qlt_bool 10 guess then 10 else guess in
        irr_loop iterations' cashflows guess
  end.

Definition calculateIRR (cashflows : list number) : number :=
  if (length cashflows <? 2)%nat then 0
  else irr_loop maxIterations cashflows 0.1.

(** ** Payback period *)

(** The scan from index [i] on, with [fuel] bounding the entries left. *)
Fixpoint payback_loop (fuel i : nat) (cumulativeCashflows : list number) : number :=
  match fuel with
  | O => of_int (Z.of_nat (length cumulativeCashflows)) - 1
  | Datatypes.S fuel' =>
      match nth_error cumulativeCashflows i with
      | None => of_int (Z.of_nat (length cumulativeCashflows)) - 1
      | Some currCumulative =>
          if Qle_bool 0 currCumulative then
            match i with
            | O => 0
            | Datatypes.S i' =>
                match nth_error cumulativeCashflows i' with
                | None => payback_loop fuel' (Datatypes.S i) cumulativeCashflows
                | Some prevCumulative =>
                    if negb (Qeq_bool (currCumulative - prevCumulative) 0) then
                      let fraction :=
                        Math_abs prevCumulative / (currCumulative - prevCumulative) in
                      of_int (Z.of_nat i') + fraction
                    else payback_loop fuel' (Datatypes.S i) cumulativeCashflows
                end
            end
          else payback_loop fuel' (Datatypes.S i) cumulativeCashflows
      end
  end.

Definition calculatePaybackPeriod (cumulativeCashflows : list number) : number :=
  payback_loop (length cumulativeCashflows) 0 cumulativeCashflows.

(** ** The metrics of one project *)

Definition calculateFinancialMetrics (data : ProjectData) : option FinancialMetrics :=
  let cashflows := calculateNetCashFlow data in
  let discountFactors := calculateDiscountFactors (projectYears data) (discountRate data) in
  match calculateDiscountedCashFlow cashflows discountFactors with
  | None => None
  | Some discountedCashflows =>
      let cumulativeCashflows := calculateCumulativeCashFlow discountedCashflows in
      Some {| npv := calculateNPV discountedCashflows;
              irr := calculateIRR cashflows;
              paybackPeriod := calculatePaybackPeriod cumulativeCashflows;
              totalCapex := calculateCapexTotal (capexItems data);
              yearlyRevenue := calculateYearlyOpexCashIn (opexCashIn data);
              yearlyExpenses := calculateYearlyOpexCashOut (opexCashOut data) |}
  end.

(** One row of the cash-flow table. *)
Record CashFlowData : Type := mkCashFlowData {
  year : Z;
  cashFlow : number;
  discountedCashFlow : number;
  cumulativeCashFlow : number;
  discountFactor : number
}.

(** The [for i] loop of [calculateCashFlowData] from index [i] on.  An index
    past the end of one of the three derived arrays reads [undefined], which
    is no number: the table is then [None]. *)
Fixpoint cashFlowData_from (i : nat)
  (cashflows discountedCashflows cumulativeCashflows discountFactors : list number)
  : option (list CashFlowData) :=
  match cashflows with
  | [] => Some []
  | cf :: rest =>
      match nth_error discountedCashflows i, nth_error cumulativeCashflows i,
            nth_error discountFactors i with
      | Some dcf, Some ccf, Some df =>
          match cashFlowData_from (Datatypes.S i) rest discountedCashflows
                  cumulativeCashflows discountFactors with
          | None => None
          | Some tl =>
              Some ({| year := Z.of_nat i;
                       cashFlow := cf;
                       discountedCashFlow := dcf;
                       cumulativeCashFlow := ccf;
                       discountFactor := df |} :: tl)
          end
      | _, _, _ => None
      end
  end.

Definition calculateCashFlowData (data : ProjectData) : option (list CashFlowData) :=
  let cashflows := calculateNetCashFlow data in
  let discountFactors := calculateDiscountFactors (projectYears data) (discountRate data) in
  match calculateDiscountedCashFlow cashflows discountFactors with
  | None => None
  | Some discountedCashflows =>
      let cumulativeCashflows := calculateCumulativeCashFlow discountedCashflows in
      cashFlowData_from 0 cashflows discountedCashflows cumulativeCashflows discountFactors
  end.

(** ** [Array.prototype.sort] *)

(** [arr.sort(compareFn)]: the language requires a stable sort, and for a
    consistent comparator every stable sort yields the same array.  It is
    embedded as a stable insertion sort: [x], which precedes every element of
    [sorted] in the input, moves behind [y] only when [compareFn(x, y) > 0]. *)
Fixpoint sort_insert {A : Type} (compareFn : A -> A -> number) (x : A) (sorted : list A)
  : list A :=
  match sorted with
  | [] => [x]
  | y :: rest =>
      if Qlt_bool 0 (compareFn x y) then y :: sort_insert compareFn x rest
      else x :: y :: rest
  end.

Definition Array_sort {A : Type} (compareFn : A -> A -> number) (arr : list A) : list A :=
  fold_right (sort_insert compareFn) [] arr.

(** ** The object store *)

Abbreviation loc := nat.

(** A [ProjectData] object: its three arrays are held by reference. *)
Record ProjectDataObj : Type := mkProjectDataObj {
  ref_capexItems : loc;
  ref_opexCashIn : loc;
  ref_opexCashOut : loc;
  obj_projectYears : Z;
  obj_discountRate : number;
  obj_opexInGrowth : number;
  obj_opexOutGrowth : number
}.

Inductive object : Type :=
| ObjItem (item : LineItem)
| ObjItems (elems : list loc)
| ObjProjectData (d : ProjectDataObj)
| ObjResults (results : list SensitivityResult).

(** The store is the sequence of the objects allocated so far; a reference is
    the position of its object. *)
Abbreviation heap := (list object).

(** Computations over the store; [None] is a failed dereference (a
    [TypeError] in JavaScript) or a [NaN] of the engine. *)
Definition M (A : Type) : Type := heap -> option (A * heap).

Definition ret {A : Type} (a : A) : M A := fun h => Some (a, h).

Definition bind {A B : Type} (m : M A) (k : A -> M B) : M B :=
  fun h => match m h with
           | Some (a, h') => k a h'
           | None => None
           end.

Notation "'do' x <- m ; k" := (bind m (fun x => k))
  (at level 10, x name, m at level 100, k at level 200).
Notation "'run' m ; k" := (bind m (fun _ => k))
  (at level 10, m at level 100, k at level 200).

Definition lift {A : Type} (o : option A) : M A :=
  fun h => match o with
           | Some a => Some (a, h)
           | None => None
           end.

Definition alloc (o : object) : M loc :=
  fun h => Some (length h, h ++ [o]).

Definition load (l : loc) : M object :=
  fun h => match h !! l with
           | Some o => Some (o, h)
           | None => None
           end.

Definition store (l : loc) (o : object) : M unit :=
  fun h => match h !! l with
           | Some _ => Some (tt, <[l := o]> h)
           | None => None
           end.

Definition load_item (l : loc) : M LineItem :=
  do o <- load l ; match o with ObjItem item => ret item | _ => lift None end.

Definition load_items (l : loc) : M (list loc) :=
  do o <- load l ; match o with ObjItems elems => ret elems | _ => lift None end.

Definition load_data (l : loc) : M ProjectDataObj :=
  do o <- load l ; match o with ObjProjectData d => ret d | _ => lift None end.

Definition load_results (l : loc) : M (list SensitivityResult) :=
  do o <- load l ; match o with ObjResults rs => ret rs | _ => lift None end.

(** Reading the items of an array, and a whole [ProjectData], by value. *)
Fixpoint read_item_list (elems : list loc) : M (list LineItem) :=
  match elems with
  | [] => ret []
  | l :: rest =>
      do item <- load_item l ;
      do items <- read_item_list rest ;
      ret (item :: items)
  end.

Definition read_items (arr : loc) : M (list LineItem) :=
  do elems <- load_items arr ; read_item_list elems.

Definition read_ProjectData (data : loc) : M ProjectData :=
  do d <- load_data data ;
  do capex <- read_items (ref_capexItems d) ;
  do cashIn <- read_items (ref_opexCashIn d) ;
  do cashOut <- read_items (ref_opexCashOut d) ;
  ret {| capexItems := capex;
         opexCashIn := cashIn;
         opexCashOut := cashOut;
         projectYears := obj_projectYears d;
         discountRate := obj_discountRate d;
         opexInGrowth := obj_opexInGrowth d;
         opexOutGrowth := obj_opexOutGrowth d |}.

(** The engine functions called on a [ProjectData] reference. *)
Definition calculateNetCashFlow_at (data : loc) : M (list number) :=
  do d <- read_ProjectData data ; ret (calculateNetCashFlow d).

Definition calculateFinancialMetrics_at (data : loc) : M FinancialMetrics :=
  do d <- read_ProjectData data ; lift (calculateFinancialMetrics d).

(** ** Sensitivity analysis *)

(** [{ ...item, price: item.price * factor }]: a new object. *)
Definition with_price (item : LineItem) (p : number) : LineItem :=
  {| item_id := item_id item;
     item_name := item_name item;
     volume := volume item;
     item_unit := item_unit item;
     price := p |}.

(** [elems.map(item => ({ ...item, price: item.price * factor }))]: one new
    object per element. *)
Fixpoint map_scaled_price (factor : number) (elems : list loc) : M (list loc) :=
  match elems with
  | [] => ret []
  | l :: rest =>
      do item <- load_item l ;
      do l' <- alloc (ObjItem (with_price item (price item * factor))) ;
      do rest' <- map_scaled_price factor rest ;
      ret (l' :: rest')
  end.

(** The [map] call on an array reference: a new array of new objects. *)
Definition scale_prices (arr : loc) (factor : number) : M loc :=
  do elems <- load_items arr ;
  do elems' <- map_scaled_price factor elems ;
  alloc (ObjItems elems').

(** [{ ...data, opexCashIn: arr }] and its siblings: a new object that shares
    the other fields, array references included, with [data]. *)
Definition with_opexCashIn (d : ProjectDataObj) (arr : loc) : ProjectDataObj :=
  {| ref_capexItems := ref_capexItems d;
     ref_opexCashIn := arr;
     ref_opexCashOut := ref_opexCashOut d;
     obj_projectYears := obj_projectYears d;
     obj_discountRate := obj_discountRate d;
     obj_opexInGrowth := obj_opexInGrowth d;
     obj_opexOutGrowth := obj_opexOutGrowth d |}.

Definition with_opexCashOut (d : ProjectDataObj) (arr : loc) : ProjectDataObj :=
  {| ref_capexItems := ref_capexItems d;
     ref_opexCashIn := ref_opexCashIn d;
     ref_opexCashOut := arr;
     obj_projectYears := obj_projectYears d;
     obj_discountRate := obj_discountRate d;
     obj_opexInGrowth := obj_opexInGrowth d;
     obj_opexOutGrowth := obj_opexOutGrowth d |}.

Definition with_capexItems (d : ProjectDataObj) (arr : loc) : ProjectDataObj :=
  {| ref_capexItems := arr;
     ref_opexCashIn := ref_opexCashIn d;
     ref_opexCashOut := ref_opexCashOut d;
     obj_projectYears := obj_projectYears d;
     obj_discountRate := obj_discountRate d;
     obj_opexInGrowth := obj_opexInGrowth d;
     obj_opexOutGrowth := obj_opexOutGrowth d |}.

Definition with_discountRate (d : ProjectDataObj) (r : number) : ProjectDataObj :=
  {| ref_capexItems := ref_capexItems d;
     ref_opexCashIn := ref_opexCashIn d;
     ref_opexCashOut := ref_opexCashOut d;
     obj_projectYears := obj_projectYears d;
     obj_discountRate := r;
     obj_opexInGrowth := obj_opexInGrowth d;
     obj_opexOutGrowth := obj_opexOutGrowth d |}.

(** [results.push(r)] and [results.sort(compareFn)] update the array held at
    [results] in place. *)
Definition push_result (results : loc) (r : SensitivityResult) : M unit :=
  do rs <- load_results results ; store results (ObjResults (rs ++ [r])).

Definition sort_results (results : loc)
  (compareFn : SensitivityResult -> SensitivityResult -> number) : M unit :=
  do rs <- load_results results ; store results (ObjResults (Array_sort compareFn rs)).

(** [performSensitivityAnalysis(data, variation)]; the caller's default
    [variation = 20] is [performSensitivityAnalysis_default].  The result is
    the reference of the [results] array. *)
Definition performSensitivityAnalysis (data : loc) (variation : number) : M loc :=
  let variationDecimal := variation / 100 in
  do baseCashflows <- calculateNetCashFlow_at data ;
  do d <- load_data data ;
  let baseDiscountFactors :=
    calculateDiscountFactors (obj_projectYears d) (obj_discountRate d) in
  do baseDiscounted <- lift (calculateDiscountedCashFlow baseCashflows baseDiscountFactors) ;
  let baseNPV := calculateNPV baseDiscounted in

  do results <- alloc (ObjResults []) ;

  (* 1. Revenue sensitivity *)
  do d <- load_data data ;
  do arr <- scale_prices (ref_opexCashIn d) (1 + variationDecimal) ;
  do highRevenueData <- alloc (ObjProjectData (with_opexCashIn d arr)) ;
  do d <- load_data data ;
  do arr <- scale_prices (ref_opexCashIn d) (1 - variationDecimal) ;
  do lowRevenueData <- alloc (ObjProjectData (with_opexCashIn d arr)) ;

  do mHigh <- calculateFinancialMetrics_at highRevenueData ;
  let npvRevenueHigh := npv mHigh in
  do mLow <- calculateFinancialMetrics_at lowRevenueData ;
  let npvRevenueLow := npv mLow in

  run push_result results
    {| variable := "Revenue";
       npvLow := npvRevenueLow;
       npvHigh := npvRevenueHigh;
       range := npvRevenueHigh - npvRevenueLow |} ;

  (* 2. Operating Costs sensitivity *)
  do d <- load_data data ;
  do arr <- scale_prices (ref_opexCashOut d) (1 + variationDecimal) ;
  do highCostData <- alloc (ObjProjectData (with_opexCashOut d arr)) ;
  do d <- load_data data ;
  do arr <- scale_prices (ref_opexCashOut d) (1 - variationDecimal) ;
  do lowCostData <- alloc (ObjProjectData (with_opexCashOut d arr)) ;

  do mHigh <- calculateFinancialMetrics_at highCostData ;
  let npvCostHigh := npv mHigh in
  do mLow <- calculateFinancialMetrics_at lowCostData ;
  let npvCostLow := npv mLow in

  run push_result results
    {| variable := "Operating Costs";
       npvLow := npvCostHigh;
       npvHigh := npvCostLow;
       range := npvCostLow - npvCostHigh |} ;

  (* 3. Initial Investment (CAPEX) sensitivity *)
  do d <- load_data data ;
  do arr <- scale_prices (ref_capexItems d) (1 + variationDecimal) ;
  do highCapexData <- alloc (ObjProjectData (with_capexItems d arr)) ;
  do d <- load_data data ;
  do arr <- scale_prices (ref_capexItems d) (1 - variationDecimal) ;
  do lowCapexData <- alloc (ObjProjectData (with_capexItems d arr)) ;

  do mHigh <- calculateFinancialMetrics_at highCapexData ;
  let npvCapexHigh := npv mHigh in
  do mLow <- calculateFinancialMetrics_at lowCapexData ;
  let npvCapexLow := npv mLow in

  run push_result results
    {| variable := "Initial Investment";
       npvLow := npvCapexHigh;
       npvHigh := npvCapexLow;
       range := npvCapexLow - npvCapexHigh |} ;

  (* 4. Discount Rate sensitivity *)
  do d <- load_data data ;
  do highRateData <-
    alloc (ObjProjectData (with_discountRate d (obj_discountRate d * (1 + variationDecimal)))) ;
  do d <- load_data data ;
  do lowRateData <-
    alloc (ObjProjectData
             (with_discountRate d (Math_max 0.1 (obj_discountRate d * (1 - variationDecimal))))) ;

  do mHigh <- calculateFinancialMetrics_at highRateData ;
  let npvRateHigh := npv mHigh in
  do mLow <- calculateFinancialMetrics_at lowRateData ;
  let npvRateLow := npv mLow in

  run push_result results
    {| variable := "Discount Rate";
       npvLow := npvRateHigh;
       npvHigh := npvRateLow;
       range := npvRateLow - npvRateHigh |} ;

  (* Sort by range (most sensitive first) *)
  run sort_results results (fun a b => range b - range a) ;

  ret results.

Definition performSensitivityAnalysis_default (data : loc) : M loc :=
  performSensitivityAnalysis data 20.

(** ** Callers of the engine *)



(** One entry of [decisionCriteria] in the [FinancialMetrics] component.  The
    fields [value] and [criteria] are display strings built with
    [Intl.NumberFormat] and [toFixed]; they do not enter the decision and are
    left out. *)
Record DecisionCriterion : Type := mkDecisionCriterion {
  metric : string;
  status : bool;
  description : string
}.

Definition decisionCriteria (metrics : FinancialMetrics) (projectData : ProjectData)
  : list DecisionCriterion :=
  [ {| metric := "NPV";
       status := Qlt_bool 0 (npv metrics);
       description := "Project creates positive value" |};
    {| metric := "IRR";
       status := Qlt_bool (discountRate projectData) (irr metrics * 100);
       description := "Return exceeds required rate" |};
    {| metric := "Payback Period";
       status := Qle_bool (paybackPeriod metrics) (of_int (projectYears projectData));
       description := "Investment recovered within timeline" |} ].

Definition passingCriteria (metrics : FinancialMetrics) (projectData : ProjectData) : nat :=
  length (List.filter (fun criteria => status criteria) (decisionCriteria metrics projectData)).

(** The result of [getRecommendation], without its [icon] (a component). *)
Record Recommendation : Type := mkRecommendation {
  rec_type : string;
  rec_title : string;
  rec_color : string;
  rec_message : string
}.

Definition getRecommendation (metrics : FinancialMetrics) (projectData : ProjectData)
  : Recommendation :=
  if (passingCriteria metrics projectData =? 3)%nat then
    {| rec_type := "success";
       rec_title := "STRONG RECOMMENDATION: PROCEED WITH PROJECT";
       rec_color := "green";
       rec_message := "All three financial criteria are met. The project demonstrates strong financial viability and should be considered for implementation." |}
  else if (passingCriteria metrics projectData =? 2)%nat then
    {| rec_type := "warning";
       rec_title := "CONDITIONAL RECOMMENDATION: PROCEED WITH CAUTION";
       rec_color := "yellow";
       rec_message := "Two out of three financial criteria are met. Consider reviewing assumptions, conducting sensitivity analysis, and evaluating optimization opportunities." |}
  else
    {| rec_type := "danger";
       rec_title := "NOT RECOMMENDED: REJECT OR REDESIGN PROJECT";
       rec_color := "red";
       rec_message := "The project fails to meet most financial criteria. Reconsider scope, explore cost reduction, or investigate alternative investments." |}.

(** ** Fixtures: a [ProjectData] built in the store *)

Fixpoint alloc_items (items : list LineItem) : M (list loc) :=
  match items with
  | [] => ret []
  | item :: rest =>
      do l <- alloc (ObjItem item) ;
      do ls <- alloc_items rest ;
      ret (l :: ls)
  end.

(** Allocates the items, the three arrays and the [ProjectData] object that
    holds them. *)
Definition alloc_ProjectData (d : ProjectData) : M loc :=
  do capex <- alloc_items (capexItems d) ;
  do capexArr <- alloc (ObjItems capex) ;
  do cashIn <- alloc_items (opexCashIn d) ;
  do cashInArr <- alloc (ObjItems cashIn) ;
  do cashOut <- alloc_items (opexCashOut d) ;
  do cashOutArr <- alloc (ObjItems cashOut) ;
  alloc (ObjProjectData
           {| ref_capexItems := capexArr;
              ref_opexCashIn := cashInArr;
              ref_opexCashOut := cashOutArr;
              obj_projectYears := projectYears d;
              obj_discountRate := discountRate d;
              obj_opexInGrowth := opexInGrowth d;
              obj_opexOutGrowth := opexOutGrowth d |}).

Definition item (v p : number) : LineItem :=
  {| item_id := "1"; item_name := "item"; volume := v; item_unit := "unit"; price := p |}.

Definition example_project : ProjectData :=
  {| capexItems := [item 4 250000];
     opexCashIn := [item 2 200000; item 1 100000];
     opexCashOut := [item 1 200000];
     projectYears := 3;
     discountRate := 10;
     opexInGrowth := 0;
     opexOutGrowth := 0 |}.

(** The store that holds [example_project] and nothing else, and the
    reference of the project in it. *)
Definition example_store : heap :=
  match alloc_ProjectData example_project [] with
  | Some (_, h) => h
  | None => []
  end.

Definition example_data : loc :=
  match alloc_ProjectData example_project [] with
  | Some (l, _) => l
  | None => 0%nat
  end.

(** A project that loses money every year, in a store of its own. *)
Definition loss_project : ProjectData :=
  {| capexItems := [item 1 1000];
     opexCashIn := [item 1 100];
     opexCashOut := [item 1 200];
     projectYears := 1;
     discountRate := 10;
     opexInGrowth := 0;
     opexOutGrowth := 0 |}.



(** ** The engine over binary64

    The same source functions on IEEE-754 doubles.  A decimal literal of the
    source ([0.1], [1e-6], [-0.99]) denotes the nearest double, here as in
    JavaScript. *)

#[local] Set Warnings "-inexact-float".

Module Double.

Local Open Scope float_scope.

Definition Math_abs (x : float) : float := abs x.

(** A loop counter used as a number (exact below [2^53]). *)
Definition of_int (i : Z) : float := of_uint63 (Uint63.of_Z i).

Section Engine.

(** [Math.pow(base, exponent)] at an integer loop counter.  ECMAScript
    fixes [Math.pow(x, 0) = 1] and the results at infinities, zeros and
    [NaN], and leaves the rest implementation-approximated. *)
Variable Math_pow : float -> Z -> float.

Definition calculateDiscountFactors (projectYears : Z) (discountRate : float) : list float :=
  let rate := discountRate / 100 in
  let factors := [1.0] in
  for_range 1 projectYears
    (fun i factors => factors ++ [Math_pow (1 + rate) i])
    factors.

(** [cashflows.map((cf, i) => ...)] from index [i] on.  Where
    [discountFactors] is too short, [discountFactors[i]] is [undefined],
    [undefined !== 0] holds and [cf / undefined] is [NaN]. *)
Fixpoint discounted_from (i : nat) (cashflows discountFactors : list float) : list float :=
  match cashflows with
  | [] => []
  | cf :: rest =>
      (match nth_error discountFactors i with
       | None => nan
       | Some df => if negb (df =? 0) then cf / df else 0
       end) :: discounted_from (Datatypes.S i) rest discountFactors
  end.

Definition calculateDiscountedCashFlow (cashflows discountFactors : list float) : list float :=
  discounted_from 0 cashflows discountFactors.

Definition maxIterations : nat := 100.
Definition tolerance : float := 1e-6.

Fixpoint irr_sums (guess : float) (j : Z) (cashflows : list float)
  (acc : float * float) : float * float :=
  match cashflows with
  | [] => acc
  | cf :: rest =>
      let '(npv, dNpv) := acc in
      irr_sums guess (j + 1)%Z rest
        (npv + cf / Math_pow (1 + guess) j,
         dNpv - of_int j * cf / Math_pow (1 + guess) (j + 1))
  end.

Fixpoint irr_loop (iterations : nat) (cashflows : list float) (guess : float) : float :=
  match iterations with
  | O => guess
  | Datatypes.S iterations' =>
      let '(npv, dNpv) := irr_sums guess 0 cashflows (0, 0) in
      if Math_abs npv <? tolerance then guess
      else if Math_abs dNpv <? tolerance then
        irr_loop iterations' cashflows (if 0 <? guess then -0.9 else 0.9)
      else
        let guess := guess - npv / dNpv in
        let guess := if guess <? -0.99 then -0.99 else guess in
        let guess := if 10 <? guess then 10 else guess in
        irr_loop iterations' cashflows guess
  end.

Definition calculateIRR (cashflows : list float) : float :=
  if (length cashflows <? 2)%nat then 0
  else irr_loop maxIterations cashflows 0.1.

End Engine.

(** The power by repeated multiplication, the instance of [Math_pow] at
    which the functions above are evaluated on concrete inputs.  It is 1 at
    exponent 0, the base at exponent 1, the correctly rounded square at
    exponent 2, and exact on powers of two up to overflow. *)
Definition pow_by_multiplication (base : float) (exponent : Z) : float :=
  Z.iter exponent (fun p => p * base) 1.


Definition finite (x : float) : bool :=
  match Prim2SF x with
  | S754_finite _ _ _ | S754_zero _ => true
  | _ => false
  end.

End Double.

(** ** Mathematical counterparts used in the statements *)

(** The sum of a list of numbers. *)
Definition Qsum (l : list number) : number := fold_right Qplus 0 l.

(** The sum of [volume * price] over a collection of items. *)
Definition sum_totals (items : list LineItem) : number :=
  Qsum (map (fun it => volume it * price it) items).

(** The callback of [calculateDiscountedCashFlow] on one cash flow [cf] and
    its discount factor [df]. *)
Definition discount_entry (cf df : number) : number :=
  if negb (Qeq_bool df 0) then cf / df else 0.

(** The discounted series and the net present value of a project. *)
Definition discountedCashflows_of (data : ProjectData) : list number :=
  zip_with discount_entry (calculateNetCashFlow data)
    (calculateDiscountFactors (projectYears data) (discountRate data)).

Definition projectNPV (data : ProjectData) : number :=
  calculateNPV (discountedCashflows_of data).

(** The items of a scenario: every price multiplied by [factor]. *)
Definition scale_items (factor : number) (items : list LineItem) : list LineItem :=
  map (fun item => with_price item (price item * factor)) items.

(** The scenarios of the sensitivity analysis, read by value. *)
Definition set_opexCashIn (d : ProjectData) (items : list OpexItem) : ProjectData :=
  {| capexItems := capexItems d;
     opexCashIn := items;
     opexCashOut := opexCashOut d;
     projectYears := projectYears d;
     discountRate := discountRate d;
     opexInGrowth := opexInGrowth d;
     opexOutGrowth := opexOutGrowth d |}.

Definition set_opexCashOut (d : ProjectData) (items : list OpexItem) : ProjectData :=
  {| capexItems := capexItems d;
     opexCashIn := opexCashIn d;
     opexCashOut := items;
     projectYears := projectYears d;
     discountRate := discountRate d;
     opexInGrowth := opexInGrowth d;
     opexOutGrowth := opexOutGrowth d |}.

Definition set_capexItems (d : ProjectData) (items : list CapexItem) : ProjectData :=
  {| capexItems := items;
     opexCashIn := opexCashIn d;
     opexCashOut := opexCashOut d;
     projectYears := projectYears d;
     discountRate := discountRate d;
     opexInGrowth := opexInGrowth d;
     opexOutGrowth := opexOutGrowth d |}.

Definition set_discountRate (d : ProjectData) (r : number) : ProjectData :=
  {| capexItems := capexItems d;
     opexCashIn := opexCashIn d;
     opexCashOut := opexCashOut d;
     projectYears := projectYears d;
     discountRate := r;
     opexInGrowth := opexInGrowth d;
     opexOutGrowth := opexOutGrowth d |}.

(** A computation that only reads: it leaves the store as it is, and gives
    the same result in every store that has grown by allocation. *)
Definition stable_read {A : Type} (m : M A) : Prop :=
  forall h v h', m h = Some (v, h') ->
    h' = h /\ forall k, m (h ++ k) = Some (v, h ++ k).

(** Total correctness of a computation: from [h] it returns a value and a
    store that satisfy [post]. *)
Definition wp {A : Type} (m : M A) (post : A -> heap -> Prop) (h : heap) : Prop :=
  exists a h', m h = Some (a, h') /\ post a h'.

(** The four records of the sensitivity analysis in the order in which they
    are pushed, as functions of the project read by value. *)
Definition sensitivity_rows (d : ProjectData) (variation : number)
  : list SensitivityResult :=
  let variationDecimal := variation / 100 in
  let npvRevenueHigh :=
    projectNPV (set_opexCashIn d (scale_items (1 + variationDecimal) (opexCashIn d))) in
  let npvRevenueLow :=
    projectNPV (set_opexCashIn d (scale_items (1 - variationDecimal) (opexCashIn d))) in
  let npvCostHigh :=
    projectNPV (set_opexCashOut d (scale_items (1 + variationDecimal) (opexCashOut d))) in
  let npvCostLow :=
    projectNPV (set_opexCashOut d (scale_items (1 - variationDecimal) (opexCashOut d))) in
  let npvCapexHigh :=
    projectNPV (set_capexItems d (scale_items (1 + variationDecimal) (capexItems d))) in
  let npvCapexLow :=
    projectNPV (set_capexItems d (scale_items (1 - variationDecimal) (capexItems d))) in
  let npvRateHigh :=
    projectNPV (set_discountRate d (discountRate d * (1 + variationDecimal))) in
  let npvRateLow :=
    projectNPV (set_discountRate d
                  (Math_max 0.1 (discountRate d * (1 - variationDecimal)))) in
  [ {| variable := "Revenue";
       npvLow := npvRevenueLow;
       npvHigh := npvRevenueHigh;
       range := npvRevenueHigh - npvRevenueLow |};
    {| variable := "Operating Costs";
       npvLow := npvCostHigh;
       npvHigh := npvCostLow;
       range := npvCostLow - npvCostHigh |};
    {| variable := "Initial Investment";
       npvLow := npvCapexHigh;
       npvHigh := npvCapexLow;
       range := npvCapexLow - npvCapexHigh |};
    {| variable := "Discount Rate";
       npvLow := npvRateHigh;
       npvHigh := npvRateLow;
       range := npvRateLow - npvRateHigh |} ].

(** The comparator passed to [results.sort]. *)
Definition by_range_desc (a b : SensitivityResult) : number := range b - range a.

(** The running sums of [l] started from [total]. *)
Fixpoint running_from (total : number) (l : list number) : list number :=
  match l with
  | [] => []
  | x :: rest => (total + x) :: running_from (total + x) rest
  end.

(** The integers [i, i + 1, ..., i + n - 1]. *)
Fixpoint zrange (i : Z) (n : nat) : list Z :=
  match n with
  | O => []
  | Datatypes.S n' => i :: zrange (i + 1)%Z n'
  end.

(** The net cash flow of year [year]. *)
Definition yearlyNet (data : ProjectData) (year : Z) : number :=
  calculateYearlyOpexCashIn (opexCashIn data)
    * Math_pow (1 + opexInGrowth data / 100.0) year
  - calculateYearlyOpexCashOut (opexCashOut data)
    * Math_pow (1 + opexOutGrowth data / 100.0) year.

(** The present value of a stream whose amount in year [k] is
    [base * (1 + growth/100)^k], discounted at [rate] percent over the years
    [1..years] (a zero discount factor contributes 0, as in the engine). *)
Definition present_value (base growth rate : number) (years : Z) : number :=
  Qsum (map (fun k => discount_entry (base * (1 + growth / 100) ^ k)
                        ((1 + rate / 100) ^ k))
          (zrange 1 (Z.to_nat years))).

(** The function whose root the rate of return is, [f(r)], the sum of
    [cashflow[i] / (1+r)^i], and its derivative [f'(r)], the sum of
    [-i * cashflow[i] / (1+r)^(i+1)]. *)
Definition irr_f (cashflows : list number) (r : number) : number :=
  Qsum (zip_with (fun i cf => cf / (1 + r) ^ i)
          (zrange 0 (length cashflows)) cashflows).

Definition irr_f' (cashflows : list number) (r : number) : number :=
  Qsum (zip_with (fun i cf => - (inject_Z i * cf / (1 + r) ^ (i + 1)))
          (zrange 0 (length cashflows)) cashflows).

(** [x] brought into the closed interval [[lo, hi]]. *)
Definition clamp (lo hi x : number) : number := Qmax lo (Qmin hi x).

(** The root search in the words of the specification: with a budget of
    iterations left, stop at [r] when [|f(r)| < 1e-6]; where the derivative
    is flat ([|f'(r)| < 1e-6]) skip the step and move to -0.9 from a
    positive guess and to 0.9 otherwise; else take the Newton-Raphson step
    [r - f(r)/f'(r)] brought into [[-0.99, 10]].  The last guess is returned
    when the budget is used up. *)
Fixpoint newton_raphson (budget : nat) (cashflows : list number) (r : number) : number :=
  match budget with
  | O => r
  | Datatypes.S budget' =>
      if Qlt_bool (Qabs (irr_f cashflows r)) 1e-6 then r
      else if Qlt_bool (Qabs (irr_f' cashflows r)) 1e-6 then
        newton_raphson budget' cashflows (if Qlt_bool 0 r then -0.9 else 0.9)
      else
        newton_raphson budget' cashflows
          (clamp (-0.99) 10 (r - irr_f cashflows r / irr_f' cashflows r))
  end.

(** Every item of a collection has a non-negative volume and price. *)
Definition nonneg_items (items : list LineItem) : Prop :=
  Forall (fun it => 0 <= volume it /\ 0 <= price it) items.

(** A double that is [NaN] or lies in [[-0.99, 10]]. *)
Definition nan_or_within (x : float) : Prop :=
  is_nan x = true \/ ((-0.99 <=? x)%float = true /\ (x <=? 10)%float = true).

(** * Properties *)

(** ** Loops and sums *)

Lemma length_zrange n : forall i, length (zrange i n) = n.
Proof. induction n as [|n IH]; intros i; simpl; [reflexivity | now rewrite IH]. Qed.

Lemma nth_error_zrange n : forall i k,
  (k < n)%nat -> nth_error (zrange i n) k = Some (i + Z.of_nat k)%Z.
Proof.
  induction n as [|n IH]; intros i k Hk; [lia|].
  destruct k as [|k]; simpl.
  - f_equal; lia.
  - rewrite IH by lia. f_equal; lia.
Qed.

(** A counting loop that pushes one value per round builds the image of the
    range of its counter. *)
Lemma for_upto_push {A : Type} (f : Z -> A) (to : Z) : forall fuel i acc,
  fuel = Z.to_nat (to - i + 1) ->
  for_upto fuel i to (fun k acc => acc ++ [f k]) acc = acc ++ map f (zrange i fuel).
Proof.
  induction fuel as [|fuel IH]; intros i acc Hfuel; simpl.
  - now rewrite app_nil_r.
  - assert (Hle : (i <=? to)%Z = true) by (apply Z.leb_le; lia).
    rewrite Hle, IH by lia.
    now rewrite <- app_assoc.
Qed.

Lemma for_range_push {A : Type} (f : Z -> A) (n : Z) (acc : list A) :
  for_range 1 n (fun k acc => acc ++ [f k]) acc = acc ++ map f (zrange 1 (Z.to_nat n)).
Proof.
  unfold for_range.
  replace (Z.to_nat (n - 1 + 1)) with (Z.to_nat n) by (f_equal; lia).
  apply for_upto_push. f_equal; lia.
Qed.

Lemma fold_left_Qplus_shift {A : Type} (f : A -> number) (l : list A) : forall a,
  fold_left (fun sum x => sum + f x) l a == a + Qsum (map f l).
Proof.
  induction l as [|x l IH]; intros a; simpl.
  - ring.
  - rewrite IH. ring.
Qed.

Lemma calculateCapexTotal_sum items : calculateCapexTotal items == sum_totals items.
Proof.
  unfold calculateCapexTotal, sum_totals, calculateTotal.
  rewrite (fold_left_Qplus_shift (fun it => volume it * price it)). ring.
Qed.

Lemma calculateYearlyOpexCashIn_sum items : calculateYearlyOpexCashIn items == sum_totals items.
Proof. apply calculateCapexTotal_sum. Qed.

Lemma calculateYearlyOpexCashOut_sum items : calculateYearlyOpexCashOut items == sum_totals items.
Proof. apply calculateCapexTotal_sum. Qed.

Lemma calculateNPV_sum l : calculateNPV l == Qsum l.
Proof.
  unfold calculateNPV.
  rewrite (fold_left_Qplus_shift (fun x => x)).
  replace (map (fun x => x) l) with l by (induction l; simpl; congruence).
  ring.
Qed.

(** ** Cash-flow projection *)

Lemma calculateNetCashFlow_closed data :
  calculateNetCashFlow data =
  - calculateCapexTotal (capexItems data)
    :: map (yearlyNet data) (zrange 1 (Z.to_nat (projectYears data))).
Proof.
  unfold calculateNetCashFlow.
  exact (for_range_push (yearlyNet data) (projectYears data) _).
Qed.

Lemma length_calculateNetCashFlow data :
  length (calculateNetCashFlow data) = Datatypes.S (Z.to_nat (projectYears data)).
Proof.
  rewrite calculateNetCashFlow_closed. simpl.
  now rewrite length_map, length_zrange.
Qed.

Lemma nth_error_calculateNetCashFlow_year data (i : Z) :
  (1 <= i <= projectYears data)%Z ->
  nth_error (calculateNetCashFlow data) (Z.to_nat i) = Some (yearlyNet data i).
Proof.
  intros Hi. rewrite calculateNetCashFlow_closed.
  replace (Z.to_nat i) with (Datatypes.S (Z.to_nat (i - 1))) by lia.
  simpl. rewrite nth_error_map, nth_error_zrange by lia.
  simpl. do 2 f_equal. lia.
Qed.

Lemma yearlyNet_formula data (i : Z) :
  yearlyNet data i ==
  sum_totals (opexCashIn data) * (1 + opexInGrowth data / 100) ^ i
  - sum_totals (opexCashOut data) * (1 + opexOutGrowth data / 100) ^ i.
Proof.
  unfold yearlyNet, Math_pow.
  rewrite calculateYearlyOpexCashIn_sum, calculateYearlyOpexCashOut_sum.
  assert (H100 : 100.0 == 100) by reflexivity.
  now rewrite H100.
Qed.

(** C1.  For a project with [projectYears >= 1], the series returned by
    [calculateNetCashFlow] has [projectYears + 1] entries; entry 0 is the
    negated sum of [volume * price] over [capexItems]; entry [i], for every
    year [i] in [1..projectYears], is the sum over [opexCashIn] times
    [(1 + opexInGrowth/100)^i] minus the sum over [opexCashOut] times
    [(1 + opexOutGrowth/100)^i].  In particular, with capex totalling
    1,000,000, cash in 500,000, cash out 200,000, both growth rates 0 and
    three years, the series is [-1000000, 300000, 300000, 300000]. *)
Theorem calculateNetCashFlow_series (data : ProjectData) :
  (1 <= projectYears data)%Z ->
  length (calculateNetCashFlow data) = Z.to_nat (projectYears data + 1)
  /\ (exists c0, nth_error (calculateNetCashFlow data) 0 = Some c0
                 /\ c0 == - sum_totals (capexItems data))
  /\ (forall i : Z, (1 <= i <= projectYears data)%Z ->
        exists ci, nth_error (calculateNetCashFlow data) (Z.to_nat i) = Some ci
                   /\ ci == sum_totals (opexCashIn data)
                              * (1 + opexInGrowth data / 100) ^ i
                            - sum_totals (opexCashOut data)
                              * (1 + opexOutGrowth data / 100) ^ i)
  /\ (sum_totals (capexItems data) == 1000000 ->
      sum_totals (opexCashIn data) == 500000 ->
      sum_totals (opexCashOut data) == 200000 ->
      opexInGrowth data == 0 -> opexOutGrowth data == 0 ->
      projectYears data = 3%Z ->
      Forall2 Qeq (calculateNetCashFlow data) [-1000000; 300000; 300000; 300000]).
Proof.
  intros Hyears. split; [|split; [|split]].
  - rewrite length_calculateNetCashFlow. lia.
  - exists (- calculateCapexTotal (capexItems data)). split.
    + now rewrite calculateNetCashFlow_closed.
    + now rewrite calculateCapexTotal_sum.
  - intros i Hi. exists (yearlyNet data i). split.
    + now apply nth_error_calculateNetCashFlow_year.
    + apply yearlyNet_formula.
  - intros Hcapex Hin Hout HgIn HgOut Hn.
    rewrite calculateNetCashFlow_closed, Hn. simpl.
    assert (Hyear : forall i, yearlyNet data i == 300000).
    { intros i. rewrite yearlyNet_formula, Hin, Hout, HgIn, HgOut.
      assert (H1 : 1 + 0 / 100 == 1) by reflexivity.
      rewrite H1, Qpower_1. reflexivity. }
    repeat constructor; try apply Hyear.
    now rewrite calculateCapexTotal_sum, Hcapex.
Qed.

Lemma calculateNetCashFlow_series_witness :
  length (calculateNetCashFlow example_project) = 4%nat
  /\ Forall2 Qeq (calculateNetCashFlow example_project)
       [-1000000; 300000; 300000; 300000].
Proof.
  destruct (calculateNetCashFlow_series example_project) as (Hlen & _ & _ & Hex).
  - simpl. lia.
  - split.
    + exact Hlen.
    + apply Hex; reflexivity.
Defined.

(** ** Payback period *)

Lemma Qle_bool_false_lt x y : x < y -> Qle_bool y x = false.
Proof.
  intros H. destruct (Qle_bool y x) eqn:E; [|reflexivity].
  apply Qle_bool_iff in E. lra.
Qed.

Lemma Qle_bool_true_le x y : x <= y -> Qle_bool x y = true.
Proof. apply Qle_bool_iff. Qed.

Lemma Qeq_bool_false_neq x y : ~ x == y -> Qeq_bool x y = false.
Proof.
  intros H. destruct (Qeq_bool x y) eqn:E; [|reflexivity].
  apply Qeq_bool_iff in E. contradiction.
Qed.

(** The scan passes over a run of negative entries. *)
Lemma payback_loop_skip neg : forall pre rest fuel,
  Forall (fun y => y < 0) neg ->
  payback_loop (length neg + fuel) (length pre) (pre ++ neg ++ rest) =
  payback_loop fuel (length pre + length neg) (pre ++ neg ++ rest).
Proof.
  induction neg as [|y neg IH]; intros pre rest fuel Hneg.
  - simpl. now rewrite Nat.add_0_r.
  - inversion Hneg as [|? ? Hy Hneg']; subst.
    cbn [length Nat.add payback_loop].
    rewrite nth_error_app2, Nat.sub_diag by lia. cbn [nth_error app].
    rewrite (Qle_bool_false_lt _ _ Hy).
    specialize (IH (pre ++ [y]) rest fuel Hneg').
    rewrite length_app in IH. cbn [length] in IH.
    rewrite <- !app_assoc in IH. cbn [app] in IH.
    replace (Datatypes.S (length pre)) with (length pre + 1)%nat by lia.
    rewrite IH. f_equal. lia.
Qed.

(** A non-negative first entry: payback is immediate. *)
Lemma calculatePaybackPeriod_first x post :
  0 <= x -> calculatePaybackPeriod (x :: post) = 0.
Proof.
  intros Hx. unfold calculatePaybackPeriod. cbn [length payback_loop nth_error].
  now rewrite (Qle_bool_true_le _ _ Hx).
Qed.

(** The first non-negative entry [x] follows the negative entry [p]: the
    difference is positive and the payback is interpolated between the two. *)
Lemma calculatePaybackPeriod_interpolate pre p x post :
  Forall (fun y => y < 0) (pre ++ [p]) -> 0 <= x ->
  ~ x - p == 0 /\
  calculatePaybackPeriod (pre ++ p :: x :: post) =
  of_int (Z.of_nat (length pre)) + Math_abs p / (x - p).
Proof.
  intros Hneg Hx.
  assert (Hp : p < 0).
  { apply Forall_app in Hneg as [_ Hp]. now inversion Hp. }
  assert (Hd : ~ x - p == 0) by lra.
  split; [exact Hd|].
  unfold calculatePaybackPeriod.
  pose proof (payback_loop_skip (pre ++ [p]) [] (x :: post)
                (Datatypes.S (length post)) Hneg) as Hskip.
  cbn [app length Nat.add] in Hskip.
  rewrite <- app_assoc in Hskip. cbn [app] in Hskip.
  rewrite length_app in Hskip. cbn [length] in Hskip.
  replace (length (pre ++ p :: x :: post))
    with (length pre + 1 + Datatypes.S (length post))%nat
    by (rewrite length_app; cbn [length]; lia).
  rewrite Hskip.
  replace (length pre + 1)%nat with (Datatypes.S (length pre)) by lia.
  cbn [payback_loop].
  replace (pre ++ p :: x :: post) with ((pre ++ [p]) ++ x :: post)
    by (rewrite <- app_assoc; reflexivity).
  rewrite (nth_error_app2 (pre ++ [p])) by (rewrite length_app; cbn [length]; lia).
  replace (Datatypes.S (length pre) - length (pre ++ [p]))%nat with 0%nat
    by (rewrite length_app; cbn [length]; lia).
  cbn [nth_error].
  rewrite (Qle_bool_true_le _ _ Hx).
  rewrite <- app_assoc. cbn [app].
  rewrite nth_error_app2, Nat.sub_diag by lia. cbn [nth_error].
  now rewrite (Qeq_bool_false_neq _ _ Hd).
Qed.

(** No entry is non-negative: the scan runs off the end. *)
Lemma calculatePaybackPeriod_never c :
  Forall (fun y => y < 0) c ->
  calculatePaybackPeriod c = of_int (Z.of_nat (length c)) - 1.
Proof.
  intros Hneg. unfold calculatePaybackPeriod.
  pose proof (payback_loop_skip c [] [] 0%nat Hneg) as Hskip.
  cbn [app length Nat.add] in Hskip.
  rewrite app_nil_r, Nat.add_0_r in Hskip.
  rewrite Hskip. reflexivity.
Qed.

(** A plateau: a non-negative entry equal to its predecessor does not end
    the scan. *)
Lemma payback_loop_plateau fuel i c curr prev :
  nth_error c (Datatypes.S i) = Some curr -> nth_error c i = Some prev ->
  0 <= curr -> curr - prev == 0 ->
  payback_loop (Datatypes.S fuel) (Datatypes.S i) c =
  payback_loop fuel (Datatypes.S (Datatypes.S i)) c.
Proof.
  intros Hcurr Hprev Hge Hd. cbn [payback_loop].
  rewrite Hcurr, Hprev, (Qle_bool_true_le _ _ Hge).
  now rewrite (Qeq_eq_bool _ _ Hd).
Qed.

(** C2.  [calculatePaybackPeriod] returns at the first index [i] whose entry
    is [>= 0]: 0 when [i = 0]; otherwise, the difference to the previous
    entry being non-zero, [(i-1) + |cumulative[i-1]| / (cumulative[i] -
    cumulative[i-1])]; a non-negative entry with a zero difference is passed
    over and the scan continues; a series that never becomes non-negative
    gives [length - 1].  On [[-100, -40, 20, 80]] the result is within
    [1e-6] of [1 + 40/60]. *)
Theorem calculatePaybackPeriod_spec :
  (forall x post, 0 <= x -> calculatePaybackPeriod (x :: post) = 0)
  /\ (forall pre p x post,
        Forall (fun y => y < 0) (pre ++ [p]) -> 0 <= x ->
        ~ x - p == 0 /\
        calculatePaybackPeriod (pre ++ p :: x :: post) =
        of_int (Z.of_nat (length pre)) + Math_abs p / (x - p))
  /\ (forall fuel i c curr prev,
        nth_error c (Datatypes.S i) = Some curr -> nth_error c i = Some prev ->
        0 <= curr -> curr - prev == 0 ->
        payback_loop (Datatypes.S fuel) (Datatypes.S i) c =
        payback_loop fuel (Datatypes.S (Datatypes.S i)) c)
  /\ (forall c, Forall (fun y => y < 0) c ->
        calculatePaybackPeriod c = of_int (Z.of_nat (length c)) - 1)
  /\ Qabs (calculatePaybackPeriod [-100; -40; 20; 80] - (1 + 40 / 60)) < 1e-6.
Proof.
  split; [exact calculatePaybackPeriod_first|].
  split; [exact calculatePaybackPeriod_interpolate|].
  split; [exact payback_loop_plateau|].
  split; [exact calculatePaybackPeriod_never|].
  reflexivity.
Qed.

Lemma calculatePaybackPeriod_spec_witness :
  calculatePaybackPeriod [5; 7] = 0
  /\ calculatePaybackPeriod ([-100] ++ -40 :: 20 :: [80])
     = of_int 1 + Math_abs (-40) / (20 - -40)
  /\ payback_loop 2 2 [3; 4; 4; 9] = payback_loop 1 3 [3; 4; 4; 9]
  /\ calculatePaybackPeriod [-3; -2; -1] = of_int 3 - 1.
Proof.
  destruct calculatePaybackPeriod_spec as (H0 & Hi & Hp & Hn & _).
  split; [|split; [|split]].
  - apply H0. vm_compute. discriminate.
  - apply (Hi [-100] (-40) 20 [80]).
    + repeat constructor.
    + vm_compute. discriminate.
  - apply (Hp 1%nat 1%nat [3; 4; 4; 9] 4 4); try reflexivity.
    vm_compute. discriminate.
  - apply Hn. repeat constructor.
Defined.

(** C10.  On the empty series [calculatePaybackPeriod] returns [-1], the
    value of [length - 1], and raises no error. *)
Theorem calculatePaybackPeriod_empty : calculatePaybackPeriod [] = -1.
Proof. reflexivity. Qed.

(** ** Internal rate of return *)

Lemma Qlt_bool_true x y : Qlt_bool x y = true -> x < y.
Proof.
  unfold Qlt_bool. intros H. apply negb_true_iff in H.
  apply Qnot_le_lt. intros Hle. apply Qle_bool_iff in Hle. congruence.
Qed.

Lemma Qlt_bool_false x y : Qlt_bool x y = false -> y <= x.
Proof.
  unfold Qlt_bool. intros H. apply negb_false_iff in H.
  now apply Qle_bool_iff.
Qed.

Lemma Qlt_bool_lt x y : x < y -> Qlt_bool x y = true.
Proof.
  intros H. unfold Qlt_bool. now rewrite (Qle_bool_false_lt _ _ H).
Qed.

(** The loop stops at the current guess as soon as [|f(guess)| < 1e-6]. *)
Lemma irr_loop_converged iterations cashflows guess :
  Qabs (fst (irr_sums guess 0 cashflows (0, 0))) < 1e-6 ->
  irr_loop (Datatypes.S iterations) cashflows guess = guess.
Proof.
  intros H. cbn [irr_loop].
  destruct (irr_sums guess 0 cashflows (0, 0)) as [f f']. cbn [fst] in H.
  unfold Math_abs, tolerance. now rewrite (Qlt_bool_lt _ _ H).
Qed.

(** The inner loop accumulates the two sums term by term. *)
Lemma irr_sums_closed guess cashflows : forall j f f',
  fst (irr_sums guess j cashflows (f, f'))
  == f + Qsum (zip_with (fun j cf => cf / (1 + guess) ^ j)
                 (zrange j (length cashflows)) cashflows)
  /\ snd (irr_sums guess j cashflows (f, f'))
     == f' - Qsum (zip_with (fun j cf => inject_Z j * cf / (1 + guess) ^ (j + 1))
                     (zrange j (length cashflows)) cashflows).
Proof.
  induction cashflows as [|cf rest IH]; intros j f f';
    cbn [irr_sums length zrange zip_with fst snd].
  - unfold Qsum. cbn [fold_right]. split; ring.
  - destruct (IH (j + 1)%Z (f + cf / Math_pow (1 + guess) j)
                (f' - of_int j * cf / Math_pow (1 + guess) (j + 1))) as [H1 H2].
    rewrite H1, H2. unfold Qsum, Math_pow, of_int. cbn [fold_right]. split; ring.
Qed.

Lemma Qsum_zip_with_ext {A B : Type} (f g : A -> B -> number) (l1 : list A) :
  forall l2, (forall a b, f a b == g a b) ->
  Qsum (zip_with f l1 l2) == Qsum (zip_with g l1 l2).
Proof.
  induction l1 as [|a l1 IH]; intros [|b l2] H; cbn [zip_with]; try reflexivity.
  unfold Qsum in *. cbn [fold_right]. now rewrite (H a b), (IH l2 H).
Qed.

Lemma Qsum_zip_with_opp {A B : Type} (f : A -> B -> number) (l1 : list A) :
  forall l2, Qsum (zip_with (fun a b => - f a b) l1 l2) == - Qsum (zip_with f l1 l2).
Proof.
  induction l1 as [|a l1 IH]; intros [|b l2]; cbn [zip_with]; try reflexivity.
  unfold Qsum in *. cbn [fold_right]. rewrite (IH l2). ring.
Qed.

Lemma irr_f_wd cashflows r r' : r == r' -> irr_f cashflows r == irr_f cashflows r'.
Proof.
  intros E. unfold irr_f. apply Qsum_zip_with_ext. intros i cf. now rewrite E.
Qed.

Lemma irr_f'_wd cashflows r r' : r == r' -> irr_f' cashflows r == irr_f' cashflows r'.
Proof.
  intros E. unfold irr_f'. apply Qsum_zip_with_ext. intros i cf. now rewrite E.
Qed.

(** The pair computed by the inner loop is [(f(guess), f'(guess))]. *)
Lemma irr_sums_spec guess cashflows :
  fst (irr_sums guess 0 cashflows (0, 0)) == irr_f cashflows guess
  /\ snd (irr_sums guess 0 cashflows (0, 0)) == irr_f' cashflows guess.
Proof.
  destruct (irr_sums_closed guess cashflows 0 0 0) as [H1 H2].
  rewrite H1, H2. unfold irr_f, irr_f'. rewrite Qsum_zip_with_opp. split; ring.
Qed.

Lemma Qlt_bool_wd x x' y y' : x == x' -> y == y' -> Qlt_bool x y = Qlt_bool x' y'.
Proof.
  intros Ex Ey. unfold Qlt_bool. f_equal.
  destruct (Qle_bool y x) eqn:E1, (Qle_bool y' x') eqn:E2; try reflexivity.
  - apply Qle_bool_iff in E1. rewrite Ex, Ey in E1. apply Qle_bool_iff in E1. congruence.
  - apply Qle_bool_iff in E2. rewrite <- Ex, <- Ey in E2. apply Qle_bool_iff in E2.
    congruence.
Qed.

(** The two tests after a Newton step bring the guess into [[-0.99, 10]]. *)
Lemma clamp_spec x y :
  x == y ->
  (let g1 := if Qlt_bool x (-0.99) then -0.99 else x in
   if Qlt_bool 10 g1 then 10 else g1) == clamp (-0.99) 10 y.
Proof.
  intros E. cbv zeta. unfold clamp. rewrite <- E.
  destruct (Qlt_bool x (-0.99)) eqn:Elo.
  - apply Qlt_bool_true in Elo.
    assert (E10 : Qlt_bool 10 (-0.99) = false) by reflexivity. rewrite E10.
    rewrite (Q.min_r 10 x) by lra. rewrite Q.max_l by lra. reflexivity.
  - apply Qlt_bool_false in Elo.
    destruct (Qlt_bool 10 x) eqn:Ehi.
    + apply Qlt_bool_true in Ehi.
      rewrite (Q.min_l 10 x) by lra. rewrite Q.max_r by lra. reflexivity.
    + apply Qlt_bool_false in Ehi.
      rewrite (Q.min_r 10 x) by lra. rewrite Q.max_r by lra. reflexivity.
Qed.

(** The loop of the code is the root search of the specification, round by
    round. *)
Lemma irr_loop_newton_raphson cashflows iterations : forall guess r,
  guess == r ->
  irr_loop iterations cashflows guess == newton_raphson iterations cashflows r.
Proof.
  induction iterations as [|n IH]; intros guess r E; cbn [irr_loop newton_raphson].
  - exact E.
  - destruct (irr_sums_spec guess cashflows) as [Hf Hf'].
    destruct (irr_sums guess 0 cashflows (0, 0)) as [f f']. cbn [fst snd] in Hf, Hf'.
    rewrite (irr_f_wd cashflows guess r E) in Hf.
    rewrite (irr_f'_wd cashflows guess r E) in Hf'.
    unfold Math_abs, tolerance.
    rewrite (Qlt_bool_wd (Qabs f) (Qabs (irr_f cashflows r)) 1e-6 1e-6)
      by (rewrite ?Hf; reflexivity).
    destruct (Qlt_bool (Qabs (irr_f cashflows r)) 1e-6); [exact E|].
    rewrite (Qlt_bool_wd (Qabs f') (Qabs (irr_f' cashflows r)) 1e-6 1e-6)
      by (rewrite ?Hf'; reflexivity).
    destruct (Qlt_bool (Qabs (irr_f' cashflows r)) 1e-6).
    + apply IH. rewrite (Qlt_bool_wd 0 0 guess r) by (assumption || reflexivity).
      reflexivity.
    + apply IH. apply clamp_spec. now rewrite E, Hf, Hf'.
Qed.

(** C5.  On the series [[-1000, 1100]] [calculateIRR] returns a value within
    [1e-4] of [0.10].  The method is the Newton-Raphson root search of the
    specification: a series of fewer than two entries has rate 0, and on
    every other series [calculateIRR] is [newton_raphson] run from the
    initial guess [0.10] with a budget of 100 iterations, which stops when
    [|f(r)| < 1e-6].  The search is seen at work on [[-1000, 1200]]: [0.10]
    is not accepted ([|f(0.10)| >= 1e-6]), the steps arrive within [1e-9] of
    the root [0.20], and the value returned passes the convergence test.  On
    [[1, 0]], where [f] is 1 and [f'] is 0 everywhere, the 100 iterations
    are used up moving between -0.9 and 0.9, and the guess of the last one,
    [0.9], is returned. *)
Theorem calculateIRR_newton_raphson :
  Qabs (calculateIRR [-1000; 1100] - 0.10) < 1e-4
  /\ (forall cashflows, (length cashflows < 2)%nat -> calculateIRR cashflows = 0)
  /\ (forall cashflows, (2 <= length cashflows)%nat ->
        calculateIRR cashflows == newton_raphson 100 cashflows 0.10)
  /\ (1e-6 <= Qabs (irr_f [-1000; 1200] 0.10)
      /\ Qabs (calculateIRR [-1000; 1200] - 0.20) < 1e-9
      /\ Qabs (irr_f [-1000; 1200] (calculateIRR [-1000; 1200])) < 1e-6)
  /\ calculateIRR [1; 0] = 0.9.
Proof.
  split; [reflexivity|].
  split.
  { intros cashflows Hlen. unfold calculateIRR.
    now rewrite (proj2 (Nat.ltb_lt _ _) Hlen). }
  split.
  { intros cashflows Hlen. unfold calculateIRR, maxIterations.
    rewrite (proj2 (Nat.ltb_ge _ _) Hlen).
    apply irr_loop_newton_raphson. reflexivity. }
  split.
  { split; [vm_compute; discriminate|].
    split; vm_compute; reflexivity. }
  vm_compute. reflexivity.
Qed.

Lemma calculateIRR_newton_raphson_witness :
  calculateIRR [5] = 0
  /\ calculateIRR [-1000; 1100] == newton_raphson 100 [-1000; 1100] 0.10.
Proof.
  destruct calculateIRR_newton_raphson as (_ & Hshort & Hlong & _).
  split.
  - apply Hshort. cbn. lia.
  - apply Hlong. cbn. lia.
Defined.

(** ** Discounting *)

Lemma nth_error_lookup {A : Type} (l : list A) : forall i, nth_error l i = l !! i.
Proof. induction l as [|x l IH]; intros [|i]; simpl; auto. Qed.

Lemma calculateDiscountFactors_closed n r :
  calculateDiscountFactors n r =
  1.0 :: map (fun i => Math_pow (1 + r / 100) i) (zrange 1 (Z.to_nat n)).
Proof.
  unfold calculateDiscountFactors.
  exact (for_range_push (fun i => Math_pow (1 + r / 100) i) n _).
Qed.

Lemma length_calculateDiscountFactors n r :
  length (calculateDiscountFactors n r) = Datatypes.S (Z.to_nat n).
Proof.
  rewrite calculateDiscountFactors_closed. simpl.
  now rewrite length_map, length_zrange.
Qed.

Lemma discounted_from_zip cashflows : forall i discountFactors,
  (i + length cashflows <= length discountFactors)%nat ->
  discounted_from i cashflows discountFactors =
  Some (zip_with discount_entry cashflows (drop i discountFactors)).
Proof.
  induction cashflows as [|cf rest IH]; intros i dfs Hlen; cbn [discounted_from].
  - reflexivity.
  - cbn [length] in Hlen.
    destruct (lookup_lt_is_Some_2 dfs i ltac:(lia)) as [df Hdf].
    rewrite nth_error_lookup, Hdf, IH by lia.
    now rewrite (drop_S _ _ _ Hdf).
Qed.

Lemma calculateDiscountedCashFlow_zip cashflows discountFactors :
  (length cashflows <= length discountFactors)%nat ->
  calculateDiscountedCashFlow cashflows discountFactors =
  Some (zip_with discount_entry cashflows discountFactors).
Proof.
  intros Hlen. unfold calculateDiscountedCashFlow.
  now rewrite discounted_from_zip by lia.
Qed.

(** ** Doubles: comparisons *)

Lemma SFcompare_antisym a b :
  SFcompare b a = option_map CompOpp (SFcompare a b).
Proof.
  destruct a as [sa|sa| |sa ma ea], b as [sb|sb| |sb mb eb]; cbn;
    try destruct sa; try destruct sb; try reflexivity.
  all: change (Pos.compare_cont Eq mb ma) with (mb ?= ma)%positive;
    change (Pos.compare_cont Eq ma mb) with (ma ?= mb)%positive;
    rewrite (Z.compare_antisym ea eb), (Pos.compare_antisym ma mb);
    destruct (ea ?= eb)%Z, (ma ?= mb)%positive; reflexivity.
Qed.

Lemma is_nan_spec x : is_nan x = true <-> Prim2SF x = S754_nan.
Proof.
  unfold is_nan. rewrite FloatAxioms.eqb_spec. unfold SFeqb.
  destruct (Prim2SF x) as [s|s| |s m e]; cbn.
  - split; discriminate.
  - destruct s; split; discriminate.
  - split; reflexivity.
  - change (Pos.compare_cont Eq m m) with (m ?= m)%positive.
    rewrite Z.compare_refl, Pos.compare_refl. destruct s; cbn; split; discriminate.
Qed.

(** Of two doubles neither of which is [NaN], one is below the other or the
    other is at most the one. *)
Lemma ltb_false_leb a b :
  (a <? b)%float = false -> is_nan a = false -> is_nan b = false ->
  (b <=? a)%float = true.
Proof.
  rewrite FloatAxioms.ltb_spec, FloatAxioms.leb_spec. unfold SFltb, SFleb.
  rewrite (SFcompare_antisym (Prim2SF a)).
  intros Hlt Ha Hb.
  destruct (SFcompare (Prim2SF a) (Prim2SF b)) as [[| |]|] eqn:E; cbn;
    try reflexivity; try discriminate.
  exfalso.
  destruct (Prim2SF a) as [sa|sa| |sa ma ea] eqn:Ea.
  all: destruct (Prim2SF b) as [sb|sb| |sb mb eb] eqn:Eb.
  all: try (cbn in E; discriminate E).
  all: try (apply is_nan_spec in Ea; congruence).
  all: try (apply is_nan_spec in Eb; congruence).
  all: try (destruct sa; discriminate E).
Qed.


(** ** Doubles: the internal rate of return *)

(** The two tests after a Newton step let [NaN] through, and nothing else
    outside [[-0.99, 10]]. *)
Lemma clamp_nan_or_within g :
  let g1 := (if g <? -0.99 then -0.99 else g)%float in
  let g2 := (if 10 <? g1 then 10 else g1)%float in
  nan_or_within g2.
Proof.
  cbv zeta. destruct (g <? -0.99)%float eqn:Elo.
  - right. split; reflexivity.
  - destruct (10 <? g)%float eqn:Ehi.
    + right. split; reflexivity.
    + destruct (is_nan g) eqn:En; [now left|right]. split.
      * apply ltb_false_leb; [exact Elo|exact En|reflexivity].
      * apply ltb_false_leb; [exact Ehi|reflexivity|exact En].
Qed.

Lemma irr_loop_nan_or_within Math_pow iterations cashflows : forall guess,
  nan_or_within guess ->
  nan_or_within (Double.irr_loop Math_pow iterations cashflows guess).
Proof.
  induction iterations as [|n IH]; intros guess Hg; cbn [Double.irr_loop].
  - exact Hg.
  - destruct (Double.irr_sums Math_pow guess 0 cashflows (0%float, 0%float)) as [f f'].
    destruct (Double.Math_abs f <? Double.tolerance)%float; [exact Hg|].
    destruct (Double.Math_abs f' <? Double.tolerance)%float.
    + apply IH. destruct (0 <? guess)%float; right; split; reflexivity.
    + apply IH. apply clamp_nan_or_within.
Qed.

(** C9.  On doubles the value returned by [calculateIRR] can be [NaN], which
    lies in no interval.  On [[1e308, 1e308, 1e308]] the sums of the first
    round are [Infinity] and [-Infinity], the Newton step
    [0.1 - Infinity / -Infinity] is [NaN], neither [NaN < -0.99] nor
    [NaN > 10] holds, and every later round keeps [NaN].  On the series
    [-100, 0.5, ..., 0.5] of 200 yearly entries the first round brings the
    guess to -0.99; there the powers of [1 + guess] underflow to zero, the
    sums of the second round are [Infinity] and [-Infinity], and [NaN] is
    returned again. *)
Theorem calculateIRR_not_a_number :
  (Double.irr_sums Double.pow_by_multiplication 0.1 0 [1e308; 1e308; 1e308]%float
     (0, 0)%float = (infinity, neg_infinity)
   /\ (0.1 - infinity / neg_infinity)%float = nan
   /\ (nan <? -0.99)%float = false /\ (10 <? nan)%float = false
   /\ Double.calculateIRR Double.pow_by_multiplication [1e308; 1e308; 1e308]%float = nan)
  /\ (Double.irr_loop Double.pow_by_multiplication 1 (-100 :: repeat 0.5 200)%float 0.1
      = (-0.99)%float
      /\ Double.irr_sums Double.pow_by_multiplication (-0.99) 0
           (-100 :: repeat 0.5 200)%float (0, 0)%float = (infinity, neg_infinity)
      /\ Double.calculateIRR Double.pow_by_multiplication (-100 :: repeat 0.5 200)%float
         = nan).
Proof. repeat split; vm_compute; reflexivity. Qed.

(** ** Doubles: discounting *)


Lemma length_Double_discounted_from cashflows dfs : forall k,
  length (Double.discounted_from k cashflows dfs) = length cashflows.
Proof.
  induction cashflows as [|c rest IH]; intros k; cbn [Double.discounted_from length].
  - reflexivity.
  - now rewrite IH.
Qed.

Lemma nth_error_Double_discounted_from cashflows dfs : forall k i cf,
  nth_error cashflows i = Some cf ->
  nth_error (Double.discounted_from k cashflows dfs) i
  = Some match nth_error dfs (k + i) with
         | None => nan
         | Some df => if negb (df =? 0)%float then (cf / df)%float else 0%float
         end.
Proof.
  induction cashflows as [|c rest IH]; intros k i cf H.
  - destruct i; discriminate H.
  - destruct i as [|i]; cbn [nth_error Double.discounted_from] in *.
    + injection H as ->. now rewrite Nat.add_0_r.
    + rewrite (IH (Datatypes.S k) i cf H). now rewrite Nat.add_succ_r.
Qed.


(** A finite cash flow divided by an infinite factor is a zero, and that
    zero times the factor is [NaN]. *)
Lemma div_mul_infinity cf df :
  Double.finite cf = true -> Prim2SF df = S754_infinity false ->
  (cf / df =? 0)%float = true /\ (cf / df * df)%float = nan.
Proof.
  intros H Hdf. unfold Double.finite in H.
  assert (E : exists s, Prim2SF (cf / df)%float = S754_zero s).
  { rewrite FloatAxioms.div_spec, Hdf.
    destruct (Prim2SF cf) as [s|s| |s m e]; try discriminate H; cbn; eauto. }
  destruct E as [s E]. split.
  - rewrite FloatAxioms.eqb_spec, E. reflexivity.
  - apply Prim2SF_inj. rewrite FloatAxioms.mul_spec, E, Hdf. reflexivity.
Qed.





(** ** The metrics of one project *)

Lemma calculateFinancialMetrics_Some data :
  calculateFinancialMetrics data =
  Some {| npv := projectNPV data;
          irr := calculateIRR (calculateNetCashFlow data);
          paybackPeriod :=
            calculatePaybackPeriod
              (calculateCumulativeCashFlow (discountedCashflows_of data));
          totalCapex := calculateCapexTotal (capexItems data);
          yearlyRevenue := calculateYearlyOpexCashIn (opexCashIn data);
          yearlyExpenses := calculateYearlyOpexCashOut (opexCashOut data) |}.
Proof.
  unfold calculateFinancialMetrics.
  rewrite calculateDiscountedCashFlow_zip.
  - reflexivity.
  - rewrite length_calculateNetCashFlow, length_calculateDiscountFactors. lia.
Qed.

(** ** Reading the store *)

Lemma bind_step {A B : Type} (m : M A) (f : A -> M B) h a h' :
  m h = Some (a, h') -> bind m f h = f a h'.
Proof. intros H. unfold bind. now rewrite H. Qed.

Lemma bind_inv {A B : Type} (m : M A) (f : A -> M B) h b h'' :
  bind m f h = Some (b, h'') ->
  exists a h', m h = Some (a, h') /\ f a h' = Some (b, h'').
Proof.
  unfold bind. destruct (m h) as [[a h']|]; [|discriminate].
  intros H. eauto.
Qed.

Lemma stable_read_ret {A : Type} (a : A) : stable_read (ret a).
Proof.
  intros h v h' H. unfold ret in *. inversion H; subst. split; auto.
Qed.

Lemma stable_read_lift {A : Type} (o : option A) : stable_read (lift o).
Proof.
  intros h v h' H. unfold lift in *. destruct o; inversion H; subst. split; auto.
Qed.

Lemma stable_read_load l : stable_read (load l).
Proof.
  intros h v h' H. unfold load in H.
  destruct (h !! l) as [o|] eqn:E; [|discriminate].
  injection H as Hv Hh. subst v h'.
  split; [reflexivity|]. intros k. unfold load.
  now rewrite (lookup_app_l_Some _ k _ _ E).
Qed.

Lemma stable_read_bind {A B : Type} (m : M A) (f : A -> M B) :
  stable_read m -> (forall a, stable_read (f a)) -> stable_read (bind m f).
Proof.
  intros Hm Hf h v h' H.
  apply bind_inv in H as (a & h1 & Hm1 & Hf1).
  destruct (Hm _ _ _ Hm1) as [-> Hmk].
  destruct (Hf a _ _ _ Hf1) as [-> Hfk].
  split; [reflexivity|]. intros k.
  now rewrite (bind_step _ _ _ _ _ (Hmk k)).
Qed.

Lemma stable_read_load_item l : stable_read (load_item l).
Proof.
  apply stable_read_bind; [apply stable_read_load|].
  intros []; auto using stable_read_ret, stable_read_lift.
Qed.

Lemma stable_read_load_items l : stable_read (load_items l).
Proof.
  apply stable_read_bind; [apply stable_read_load|].
  intros []; auto using stable_read_ret, stable_read_lift.
Qed.

Lemma stable_read_load_data l : stable_read (load_data l).
Proof.
  apply stable_read_bind; [apply stable_read_load|].
  intros []; auto using stable_read_ret, stable_read_lift.
Qed.

Lemma stable_read_load_results l : stable_read (load_results l).
Proof.
  apply stable_read_bind; [apply stable_read_load|].
  intros []; auto using stable_read_ret, stable_read_lift.
Qed.

Lemma stable_read_read_item_list elems : stable_read (read_item_list elems).
Proof.
  induction elems as [|l rest IH]; cbn [read_item_list].
  - apply stable_read_ret.
  - apply stable_read_bind; [apply stable_read_load_item|]. intros it.
    apply stable_read_bind; [exact IH|]. intros its. apply stable_read_ret.
Qed.

Lemma stable_read_read_items arr : stable_read (read_items arr).
Proof.
  apply stable_read_bind; [apply stable_read_load_items|].
  apply stable_read_read_item_list.
Qed.

Lemma stable_read_read_ProjectData data : stable_read (read_ProjectData data).
Proof.
  apply stable_read_bind; [apply stable_read_load_data|]. intros d.
  apply stable_read_bind; [apply stable_read_read_items|]. intros capex.
  apply stable_read_bind; [apply stable_read_read_items|]. intros cashIn.
  apply stable_read_bind; [apply stable_read_read_items|]. intros cashOut.
  apply stable_read_ret.
Qed.

Lemma stable_read_calculateNetCashFlow_at data :
  stable_read (calculateNetCashFlow_at data).
Proof.
  apply stable_read_bind; [apply stable_read_read_ProjectData|].
  intros d. apply stable_read_ret.
Qed.

Lemma stable_read_calculateFinancialMetrics_at data :
  stable_read (calculateFinancialMetrics_at data).
Proof.
  apply stable_read_bind; [apply stable_read_read_ProjectData|].
  intros d. apply stable_read_lift.
Qed.

(** A value read from the store is still read after the store has grown. *)
Lemma read_app {A : Type} (m : M A) h v k :
  stable_read m -> m h = Some (v, h) -> m (h ++ k) = Some (v, h ++ k).
Proof. intros Hm H. now apply (Hm _ _ _ H). Qed.

(** What [read_ProjectData] reads, piece by piece. *)
Lemma read_ProjectData_inv data h d h' :
  read_ProjectData data h = Some (d, h') ->
  h' = h /\
  exists dobj,
    load_data data h = Some (dobj, h)
    /\ read_items (ref_capexItems dobj) h = Some (capexItems d, h)
    /\ read_items (ref_opexCashIn dobj) h = Some (opexCashIn d, h)
    /\ read_items (ref_opexCashOut dobj) h = Some (opexCashOut d, h)
    /\ projectYears d = obj_projectYears dobj
    /\ discountRate d = obj_discountRate dobj
    /\ opexInGrowth d = obj_opexInGrowth dobj
    /\ opexOutGrowth d = obj_opexOutGrowth dobj.
Proof.
  intros H. unfold read_ProjectData in H.
  apply bind_inv in H as (dobj & h1 & H1 & H).
  destruct (stable_read_load_data _ _ _ _ H1) as [-> _].
  apply bind_inv in H as (capex & h2 & H2 & H).
  destruct (stable_read_read_items _ _ _ _ H2) as [-> _].
  apply bind_inv in H as (cashIn & h3 & H3 & H).
  destruct (stable_read_read_items _ _ _ _ H3) as [-> _].
  apply bind_inv in H as (cashOut & h4 & H4 & H).
  destruct (stable_read_read_items _ _ _ _ H4) as [-> _].
  unfold ret in H. inversion H; subst. split; [reflexivity|].
  exists dobj. cbn. repeat split; assumption.
Qed.

Lemma read_ProjectData_intro data h dobj capex cashIn cashOut :
  load_data data h = Some (dobj, h) ->
  read_items (ref_capexItems dobj) h = Some (capex, h) ->
  read_items (ref_opexCashIn dobj) h = Some (cashIn, h) ->
  read_items (ref_opexCashOut dobj) h = Some (cashOut, h) ->
  read_ProjectData data h =
  Some ({| capexItems := capex;
           opexCashIn := cashIn;
           opexCashOut := cashOut;
           projectYears := obj_projectYears dobj;
           discountRate := obj_discountRate dobj;
           opexInGrowth := obj_opexInGrowth dobj;
           opexOutGrowth := obj_opexOutGrowth dobj |}, h).
Proof.
  intros H1 H2 H3 H4. unfold read_ProjectData.
  rewrite (bind_step _ _ _ _ _ H1), (bind_step _ _ _ _ _ H2),
    (bind_step _ _ _ _ _ H3), (bind_step _ _ _ _ _ H4).
  reflexivity.
Qed.

(** ** Allocation *)

Lemma alloc_eq o h : alloc o h = Some (length h, h ++ [o]).
Proof. reflexivity. Qed.

Lemma load_fresh h o k : load (length h) (h ++ o :: k) = Some (o, h ++ o :: k).
Proof. unfold load. now rewrite list_lookup_middle. Qed.

Lemma load_data_fresh h dobj k :
  load_data (length h) (h ++ ObjProjectData dobj :: k)
  = Some (dobj, h ++ ObjProjectData dobj :: k).
Proof. unfold load_data. now rewrite (bind_step _ _ _ _ _ (load_fresh _ _ _)). Qed.

Lemma load_items_fresh h elems k :
  load_items (length h) (h ++ ObjItems elems :: k)
  = Some (elems, h ++ ObjItems elems :: k).
Proof. unfold load_items. now rewrite (bind_step _ _ _ _ _ (load_fresh _ _ _)). Qed.

Lemma load_item_fresh h it k :
  load_item (length h) (h ++ ObjItem it :: k) = Some (it, h ++ ObjItem it :: k).
Proof. unfold load_item. now rewrite (bind_step _ _ _ _ _ (load_fresh _ _ _)). Qed.

Lemma load_results_fresh h rs k :
  load_results (length h) (h ++ ObjResults rs :: k)
  = Some (rs, h ++ ObjResults rs :: k).
Proof. unfold load_results. now rewrite (bind_step _ _ _ _ _ (load_fresh _ _ _)). Qed.

Lemma read_item_list_inv elems : forall h items h',
  read_item_list elems h = Some (items, h') -> h' = h.
Proof. intros h items h' H. now apply (stable_read_read_item_list elems _ _ _ H). Qed.

(** [map] over an array of items allocates the scaled copies and reads none
    of them back into the old objects. *)
Lemma map_scaled_price_spec factor elems : forall h items,
  read_item_list elems h = Some (items, h) ->
  exists elems' k,
    map_scaled_price factor elems h = Some (elems', h ++ k)
    /\ read_item_list elems' (h ++ k) = Some (scale_items factor items, h ++ k).
Proof.
  induction elems as [|l rest IH]; intros h items Hread; cbn [read_item_list] in Hread.
  - inversion Hread; subst. exists [], []. rewrite app_nil_r. split; reflexivity.
  - apply bind_inv in Hread as (it & h1 & Hit & Hread).
    destruct (stable_read_load_item _ _ _ _ Hit) as [-> _].
    apply bind_inv in Hread as (its & h2 & Hits & Hread).
    destruct (stable_read_read_item_list _ _ _ _ Hits) as [-> _].
    inversion Hread; subst. clear Hread.
    set (o := ObjItem (with_price it (price it * factor))).
    destruct (IH (h ++ [o]) its) as (elems' & k & Hmap & Hread').
    { apply read_app; [apply stable_read_read_item_list | exact Hits]. }
    exists (length h :: elems'), (o :: k).
    assert (Happ : (h ++ [o]) ++ k = h ++ o :: k) by now rewrite <- app_assoc.
    rewrite Happ in Hmap, Hread'.
    split.
    + cbn [map_scaled_price].
      rewrite (bind_step _ _ _ _ _ Hit).
      rewrite (bind_step _ _ _ _ _ (alloc_eq _ h)). fold o.
      rewrite (bind_step _ _ _ _ _ Hmap). reflexivity.
    + cbn [read_item_list scale_items map].
      unfold o at 1. rewrite (bind_step _ _ _ _ _ (load_item_fresh _ _ _)).
      fold o. unfold scale_items in Hread'. rewrite (bind_step _ _ _ _ _ Hread').
      reflexivity.
Qed.

Lemma scale_prices_spec arr factor h items :
  read_items arr h = Some (items, h) ->
  exists arr' k,
    scale_prices arr factor h = Some (arr', h ++ k)
    /\ read_items arr' (h ++ k) = Some (scale_items factor items, h ++ k).
Proof.
  intros Hread. unfold read_items in Hread.
  apply bind_inv in Hread as (elems & h1 & Helems & Hread).
  destruct (stable_read_load_items _ _ _ _ Helems) as [-> _].
  destruct (map_scaled_price_spec factor elems h items Hread) as (elems' & k & Hmap & Hread').
  exists (length (h ++ k)), (k ++ [ObjItems elems']).
  rewrite app_assoc. split.
  - unfold scale_prices.
    rewrite (bind_step _ _ _ _ _ Helems), (bind_step _ _ _ _ _ Hmap).
    apply alloc_eq.
  - unfold read_items.
    rewrite (bind_step _ _ _ _ _ (load_items_fresh _ _ _)).
    apply read_app; [apply stable_read_read_item_list | exact Hread'].
Qed.

(** ** Rules for running a computation *)

Lemma wp_bind {A B : Type} (m : M A) (f : A -> M B) post h :
  wp m (fun a h' => wp (f a) post h') h -> wp (bind m f) post h.
Proof.
  intros (a & h' & Hm & b & h'' & Hf & Hpost).
  exists b, h''. split; [|exact Hpost].
  now rewrite (bind_step _ _ _ _ _ Hm).
Qed.

Lemma wp_ret {A : Type} (a : A) (post : A -> heap -> Prop) h :
  post a h -> wp (ret a) post h.
Proof. intros H. exists a, h. split; [reflexivity | exact H]. Qed.

Lemma wp_read {A : Type} (m : M A) v (post : A -> heap -> Prop) h :
  m h = Some (v, h) -> post v h -> wp m post h.
Proof. intros Hm H. exists v, h. split; assumption. Qed.

Lemma wp_lift {A : Type} (a : A) (post : A -> heap -> Prop) h :
  post a h -> wp (lift (Some a)) post h.
Proof. intros H. exists a, h. split; [reflexivity | exact H]. Qed.

Lemma wp_alloc o (post : loc -> heap -> Prop) h :
  post (length h) (h ++ [o]) -> wp (alloc o) post h.
Proof. intros H. exists (length h), (h ++ [o]). split; [reflexivity | exact H]. Qed.

Lemma wp_scale_prices arr factor items (post : loc -> heap -> Prop) h :
  read_items arr h = Some (items, h) ->
  (forall arr' k,
     read_items arr' (h ++ k) = Some (scale_items factor items, h ++ k) ->
     post arr' (h ++ k)) ->
  wp (scale_prices arr factor) post h.
Proof.
  intros Hread Hpost.
  destruct (scale_prices_spec arr factor h items Hread) as (arr' & k & Hs & Hr).
  exists arr', (h ++ k). split; [exact Hs | now apply Hpost].
Qed.

Lemma store_results_eq h rs rs' k :
  store (length h) (ObjResults rs') (h ++ ObjResults rs :: k)
  = Some (tt, h ++ ObjResults rs' :: k).
Proof.
  unfold store. rewrite list_lookup_middle by reflexivity.
  rewrite insert_app_r_alt, Nat.sub_diag by lia. reflexivity.
Qed.

Lemma wp_push_result h rs k x (post : unit -> heap -> Prop) :
  post tt (h ++ ObjResults (rs ++ [x]) :: k) ->
  wp (push_result (length h) x) post (h ++ ObjResults rs :: k).
Proof.
  intros H. exists tt, (h ++ ObjResults (rs ++ [x]) :: k). split; [|exact H].
  unfold push_result.
  rewrite (bind_step _ _ _ _ _ (load_results_fresh _ _ _)).
  apply store_results_eq.
Qed.

Lemma wp_sort_results h rs k compareFn (post : unit -> heap -> Prop) :
  post tt (h ++ ObjResults (Array_sort compareFn rs) :: k) ->
  wp (sort_results (length h) compareFn) post (h ++ ObjResults rs :: k).
Proof.
  intros H. exists tt, (h ++ ObjResults (Array_sort compareFn rs) :: k).
  split; [|exact H].
  unfold sort_results.
  rewrite (bind_step _ _ _ _ _ (load_results_fresh _ _ _)).
  apply store_results_eq.
Qed.

Lemma wp_calculateFinancialMetrics_at data d (post : FinancialMetrics -> heap -> Prop) h :
  read_ProjectData data h = Some (d, h) ->
  (forall m, calculateFinancialMetrics d = Some m -> npv m = projectNPV d -> post m h) ->
  wp (calculateFinancialMetrics_at data) post h.
Proof.
  intros Hread Hpost.
  eexists _, h. split.
  - unfold calculateFinancialMetrics_at.
    rewrite (bind_step _ _ _ _ _ Hread), calculateFinancialMetrics_Some.
    reflexivity.
  - apply Hpost; [apply calculateFinancialMetrics_Some | reflexivity].
Qed.

(** Reading a freshly allocated [ProjectData] object whose arrays are in the
    store. *)
Lemma read_ProjectData_fresh h dobj capex cashIn cashOut :
  read_items (ref_capexItems dobj) h = Some (capex, h) ->
  read_items (ref_opexCashIn dobj) h = Some (cashIn, h) ->
  read_items (ref_opexCashOut dobj) h = Some (cashOut, h) ->
  read_ProjectData (length h) (h ++ [ObjProjectData dobj]) =
  Some ({| capexItems := capex;
           opexCashIn := cashIn;
           opexCashOut := cashOut;
           projectYears := obj_projectYears dobj;
           discountRate := obj_discountRate dobj;
           opexInGrowth := obj_opexInGrowth dobj;
           opexOutGrowth := obj_opexOutGrowth dobj |}, h ++ [ObjProjectData dobj]).
Proof.
  intros H1 H2 H3.
  apply read_ProjectData_intro.
  - apply load_data_fresh.
  - apply read_app; [apply stable_read_read_items | exact H1].
  - apply read_app; [apply stable_read_read_items | exact H2].
  - apply read_app; [apply stable_read_read_items | exact H3].
Qed.

(** ** The sensitivity analysis, run on a store *)

Create HintDb stable.

#[local] Hint Resolve stable_read_load_data stable_read_read_items
  stable_read_read_ProjectData : stable.

Ltac solve_read :=
  repeat first
    [ eassumption
    | apply read_app; [solve [auto with stable] |] ].

Ltac norm_heap := rewrite <- ?app_assoc; cbn [app].

(** From a store in which [data] reads as [d], the analysis returns the
    reference of a new array; the store has only grown, and the array holds
    the four records of [sensitivity_rows d variation], sorted. *)
Lemma performSensitivityAnalysis_runs data variation h d :
  read_ProjectData data h = Some (d, h) ->
  wp (performSensitivityAnalysis data variation)
     (fun results h' =>
        results = length h /\
        exists k,
          h' = h ++ ObjResults (Array_sort by_range_desc (sensitivity_rows d variation)) :: k)
     h.
Proof.
  intros Hd.
  destruct (read_ProjectData_inv _ _ _ _ Hd)
    as (_ & dobj & Hload & Hcapex & Hin & Hout & Hy & Hr & HgI & HgO).
  destruct d as [c i o y r gi go]. cbn in Hcapex, Hin, Hout, Hy, Hr, HgI, HgO.
  subst y r gi go.
  unfold performSensitivityAnalysis. cbv zeta.
  apply wp_bind. eapply wp_read.
  { unfold calculateNetCashFlow_at. rewrite (bind_step _ _ _ _ _ Hd). reflexivity. }
  apply wp_bind. eapply wp_read; [exact Hload|].
  apply wp_bind. rewrite calculateDiscountedCashFlow_zip
    by (rewrite length_calculateNetCashFlow, length_calculateDiscountFactors; cbn; lia).
  apply wp_lift.
  apply wp_bind. apply wp_alloc.
  (* the three blocks that scale an array of items *)
  do 3 (
    apply wp_bind; (eapply wp_read; [solve_read|]);
    apply wp_bind; (eapply wp_scale_prices; [solve_read|]); intros ? ? ?;
    apply wp_bind; apply wp_alloc;
    apply wp_bind; (eapply wp_read; [solve_read|]);
    apply wp_bind; (eapply wp_scale_prices; [solve_read|]); intros ? ? ?;
    apply wp_bind; apply wp_alloc;
    apply wp_bind;
    (eapply wp_calculateFinancialMetrics_at;
     [ apply read_app; [solve [auto with stable]|];
       apply read_app; [solve [auto with stable]|];
       apply read_ProjectData_fresh; cbn; solve_read |]);
    intros ? _ ?;
    apply wp_bind;
    (eapply wp_calculateFinancialMetrics_at;
     [ apply read_ProjectData_fresh; cbn; solve_read |]);
    intros ? _ ?;
    norm_heap; apply wp_bind; apply wp_push_result).
  (* the discount-rate block *)
  apply wp_bind; (eapply wp_read; [solve_read|]).
  apply wp_bind; apply wp_alloc.
  apply wp_bind; (eapply wp_read; [solve_read|]).
  apply wp_bind; apply wp_alloc.
  apply wp_bind.
  (eapply wp_calculateFinancialMetrics_at;
   [ apply read_app; [solve [auto with stable]|];
     apply read_ProjectData_fresh; cbn; solve_read |]).
  intros ? _ ?.
  apply wp_bind.
  (eapply wp_calculateFinancialMetrics_at;
   [ apply read_ProjectData_fresh; cbn; solve_read |]).
  intros ? _ ?.
  norm_heap. apply wp_bind. apply wp_push_result.
  apply wp_bind. apply wp_sort_results.
  apply wp_ret.
  split; [reflexivity|].
  eexists. cbn [app].
  repeat match goal with
         | H : npv _ = _ |- _ => rewrite H; clear H
         end.
  reflexivity.
Qed.

Lemma example_store_reads :
  read_ProjectData example_data example_store = Some (example_project, example_store).
Proof. vm_compute. reflexivity. Qed.

(** C7.  [performSensitivityAnalysis] leaves its input unmodified: called on
    a store in which [data] reads as [d], it returns, every object of the
    store before the call is found unchanged at its reference after it (the
    store has only grown, so the scenarios are new objects), and [data]
    still reads as [d], field by field and item by item. *)
Theorem performSensitivityAnalysis_frame (data : loc) (variation : number)
  (h : heap) (d : ProjectData) :
  read_ProjectData data h = Some (d, h) ->
  exists results h',
    performSensitivityAnalysis data variation h = Some (results, h')
    /\ (exists k, h' = h ++ k)
    /\ (forall l o, h !! l = Some o -> h' !! l = Some o)
    /\ h !! results = None
    /\ read_ProjectData data h' = Some (d, h').
Proof.
  intros Hd.
  destruct (performSensitivityAnalysis_runs data variation h d Hd)
    as (results & h' & Hrun & -> & k & ->).
  exists (length h), (h ++ ObjResults
                          (Array_sort by_range_desc (sensitivity_rows d variation)) :: k).
  split; [exact Hrun|].
  split; [eauto|].
  split; [intros l o Hl; now apply lookup_app_l_Some|].
  split; [apply lookup_ge_None_2; lia|].
  apply read_app; [apply stable_read_read_ProjectData | exact Hd].
Qed.

Lemma performSensitivityAnalysis_frame_witness :
  exists results h',
    performSensitivityAnalysis example_data 20 example_store = Some (results, h')
    /\ read_ProjectData example_data h' = Some (example_project, h').
Proof.
  destruct (performSensitivityAnalysis_frame example_data 20 example_store
              example_project example_store_reads)
    as (results & h' & Hrun & _ & _ & _ & Hread).
  exists results, h'. split; [exact Hrun | exact Hread].
Defined.

(** ** Sorting *)

Section SortDescending.
Context {A : Type} (key : A -> number).

Let compareFn (a b : A) : number := key b - key a.

Lemma sort_insert_perm (cmp : A -> A -> number) x l :
  Permutation (sort_insert cmp x l) (x :: l).
Proof.
  induction l as [|y l IH]; cbn [sort_insert].
  - reflexivity.
  - destruct (Qlt_bool 0 (cmp x y)).
    + rewrite IH. apply perm_swap.
    + reflexivity.
Qed.

Lemma Array_sort_perm (cmp : A -> A -> number) l :
  Permutation (Array_sort cmp l) l.
Proof.
  induction l as [|x l IH]; cbn [Array_sort fold_right].
  - reflexivity.
  - fold (Array_sort cmp l). rewrite sort_insert_perm. now constructor.
Qed.




End SortDescending.



(** ** Net present value *)

Lemma Qsum_map_le {A : Type} (f g : A -> number) (l : list A) :
  (forall k, In k l -> f k <= g k) -> Qsum (map f l) <= Qsum (map g l).
Proof.
  induction l as [|x l IH]; intros H; cbn [map Qsum fold_right].
  - lra.
  - assert (Hx : f x <= g x) by (apply H; now left).
    assert (Hl : Qsum (map f l) <= Qsum (map g l)).
    { apply IH. intros k Hk. apply H. now right. }
    unfold Qsum in Hl. lra.
Qed.

Lemma In_zrange n : forall i k, In k (zrange i n) -> (i <= k < i + Z.of_nat n)%Z.
Proof.
  induction n as [|n IH]; intros i k Hk; cbn [zrange] in Hk.
  - destruct Hk.
  - destruct Hk as [<- | Hk]; [lia|]. apply IH in Hk. lia.
Qed.

Lemma zip_with_discount_entry (a b : number) (f g : Z -> number) (zs : list Z) :
  zip_with discount_entry (a :: map f zs) (b :: map g zs)
  = discount_entry a b :: map (fun k => discount_entry (f k) (g k)) zs.
Proof.
  cbn [zip_with]. f_equal.
  induction zs as [|z zs IH]; cbn [map zip_with]; [reflexivity|].
  now rewrite IH.
Qed.

Lemma discount_entry_one x : discount_entry x 1.0 == x.
Proof.
  unfold discount_entry. change (negb (Qeq_bool 1.0 0)) with true. cbv iota.
  unfold Qeq. cbn. lia.
Qed.

(** The net present value of a project: the negated capital expenditure plus
    the discounted net cash flows of the years [1..projectYears]. *)
Lemma projectNPV_closed data :
  projectNPV data ==
  - calculateCapexTotal (capexItems data)
  + Qsum (map (fun k => discount_entry (yearlyNet data k)
                          (Math_pow (1 + discountRate data / 100) k))
            (zrange 1 (Z.to_nat (projectYears data)))).
Proof.
  unfold projectNPV, discountedCashflows_of.
  rewrite calculateNPV_sum, calculateNetCashFlow_closed, calculateDiscountFactors_closed.
  rewrite zip_with_discount_entry. cbn [Qsum fold_right].
  now rewrite discount_entry_one.
Qed.

Lemma discount_entry_mono_cf df a b :
  0 <= df -> a <= b -> discount_entry a df <= discount_entry b df.
Proof.
  intros Hdf Hab. unfold discount_entry.
  destruct (Qeq_bool df 0) eqn:E; cbn [negb]; [lra|].
  apply Qeq_bool_neq in E.
  unfold Qdiv. apply Qmult_le_compat_r; [exact Hab|].
  apply Qinv_le_0_compat. exact Hdf.
Qed.

Lemma discount_entry_mono_df cf d1 d2 :
  0 <= cf -> 0 < d1 -> d1 <= d2 -> discount_entry cf d2 <= discount_entry cf d1.
Proof.
  intros Hcf Hd1 Hd12. unfold discount_entry.
  rewrite (Qeq_bool_false_neq d1 0), (Qeq_bool_false_neq d2 0) by lra.
  cbn [negb].
  apply Qle_shift_div_r; [lra|].
  assert (H0 : 0 <= cf / d1).
  { unfold Qdiv. apply Qmult_le_0_compat; [exact Hcf|].
    apply Qinv_le_0_compat. lra. }
  assert (H1 : cf / d1 * d1 == cf) by (field; lra).
  assert (H2 : cf / d1 * d1 <= cf / d1 * d2).
  { rewrite !(Qmult_comm (cf / d1)). now apply Qmult_le_compat_r. }
  lra.
Qed.

Lemma Qpower_le_base a b (k : Z) :
  0 <= a -> a <= b -> (0 <= k)%Z -> a ^ k <= b ^ k.
Proof.
  intros Ha Hab Hk.
  rewrite <- (Z2Nat.id k Hk). generalize (Z.to_nat k). clear k Hk.
  intros n. induction n as [|n IH].
  - change (Z.of_nat 0) with 0%Z. rewrite !Qpower_0_r. lra.
  - rewrite Nat2Z.inj_succ. unfold Z.succ.
    rewrite !Qpower_plus' by lia.
    rewrite !Qpower_1_r.
    apply Qmult_le_compat_nonneg.
    + split; [apply Qpower_0_le; exact Ha | exact IH].
    + split; [exact Ha | exact Hab].
Qed.

Lemma sum_totals_scale factor items :
  sum_totals (scale_items factor items) == factor * sum_totals items.
Proof.
  unfold sum_totals, scale_items.
  induction items as [|it items IH]; cbn [map Qsum fold_right price volume with_price].
  - ring.
  - unfold Qsum in IH. rewrite IH. ring.
Qed.




(** A higher discount rate does not raise the net present value when no
    yearly net cash flow is negative. *)
Lemma projectNPV_discountRate_mono d r1 r2 :
  -100 < r1 -> r1 <= r2 ->
  (forall k, (1 <= k <= projectYears d)%Z -> 0 <= yearlyNet d k) ->
  projectNPV (set_discountRate d r2) <= projectNPV (set_discountRate d r1).
Proof.
  intros Hr1 Hr12 Hnet.
  rewrite !projectNPV_closed. cbn [capexItems projectYears discountRate set_discountRate].
  apply Qplus_le_r. apply Qsum_map_le. intros k Hk.
  apply In_zrange in Hk.
  change (yearlyNet (set_discountRate d r2) k) with (yearlyNet d k).
  change (yearlyNet (set_discountRate d r1) k) with (yearlyNet d k).
  unfold Math_pow.
  apply discount_entry_mono_df.
  - apply Hnet. lia.
  - apply Qpower_0_lt. change (r1 / 100) with (r1 * (1 # 100)). lra.
  - apply Qpower_le_base; [| |lia].
    + change (r1 / 100) with (r1 * (1 # 100)). lra.
    + change (r1 / 100) with (r1 * (1 # 100)).
      change (r2 / 100) with (r2 * (1 # 100)). lra.
Qed.

(** ** The ranges of the sensitivity analysis *)


Lemma In_sensitivity_rows d variation r :
  In r (Array_sort by_range_desc (sensitivity_rows d variation)) ->
  In r (sensitivity_rows d variation).
Proof. apply Permutation_in, Array_sort_perm. Qed.


Lemma sum_totals_nonneg items : nonneg_items items -> 0 <= sum_totals items.
Proof.
  unfold nonneg_items, sum_totals, Qsum.
  induction 1 as [|it items [Hv Hp] _ IH]; cbn [map fold_right]; [lra|].
  assert (0 <= volume it * price it) by now apply Qmult_le_0_compat.
  lra.
Qed.



(** * Further properties of the engine *)

(** ** Cumulative series and net present value *)

Lemma cumulative_fold l : forall total cumulative,
  fold_left
    (fun '(total, cumulative) dcf =>
       let total := total + dcf in (total, cumulative ++ [total]))
    l (total, cumulative)
  = (fold_left Qplus l total, cumulative ++ running_from total l).
Proof.
  induction l as [|x l IH]; intros total cumulative; cbn [fold_left running_from].
  - now rewrite app_nil_r.
  - rewrite IH. now rewrite <- app_assoc.
Qed.

Lemma calculateCumulativeCashFlow_running l :
  calculateCumulativeCashFlow l = running_from 0 l.
Proof. unfold calculateCumulativeCashFlow. now rewrite cumulative_fold. Qed.

Lemma length_running_from l : forall total, length (running_from total l) = length l.
Proof. induction l as [|x l IH]; intros total; cbn; [reflexivity | now rewrite IH]. Qed.

Lemma nth_error_running_from l : forall total i x,
  nth_error (running_from total l) i = Some x ->
  x == total + Qsum (firstn (Datatypes.S i) l).
Proof.
  induction l as [|y l IH]; intros total i x Hx.
  - destruct i; discriminate Hx.
  - destruct i as [|i]; cbn [running_from nth_error] in Hx.
    + injection Hx as <-. change (firstn 1 (y :: l)) with [y].
      cbn [Qsum fold_right]. ring.
    + apply IH in Hx. rewrite Hx.
      change (firstn (Datatypes.S (Datatypes.S i)) (y :: l))
        with (y :: firstn (Datatypes.S i) l).
      cbn [Qsum fold_right]. unfold Qsum. ring.
Qed.

Lemma last_running_from l : forall total,
  l <> [] -> List.last (running_from total l) 0 == total + Qsum l.
Proof.
  induction l as [|y l IH]; intros total Hne; [contradiction|].
  destruct l as [|z l].
  - cbn [running_from List.last Qsum fold_right]. ring.
  - change (running_from total (y :: z :: l))
      with ((total + y) :: running_from (total + y) (z :: l)).
    change (List.last ((total + y) :: running_from (total + y) (z :: l)) 0)
      with (List.last (running_from (total + y) (z :: l)) 0).
    rewrite IH by discriminate. cbn [Qsum fold_right]. ring.
Qed.

(** [calculateCumulativeCashFlow] keeps the length of the series, its entry
    [i] is the sum of the entries [0..i] of the input, and its last entry is
    the net present value computed by [calculateNPV]. *)
Theorem calculateCumulativeCashFlow_spec (discounted : list number) :
  length (calculateCumulativeCashFlow discounted) = length discounted
  /\ (forall i x, nth_error (calculateCumulativeCashFlow discounted) i = Some x ->
        x == Qsum (firstn (Datatypes.S i) discounted))
  /\ (discounted <> [] ->
        List.last (calculateCumulativeCashFlow discounted) 0 == calculateNPV discounted).
Proof.
  rewrite calculateCumulativeCashFlow_running.
  split; [apply length_running_from|]. split.
  - intros i x Hx. apply nth_error_running_from in Hx. rewrite Hx. ring.
  - intros Hne. rewrite last_running_from, calculateNPV_sum by exact Hne. ring.
Qed.

Lemma calculateCumulativeCashFlow_spec_witness :
  List.last (calculateCumulativeCashFlow [-100; 60; 60]) 0 == calculateNPV [-100; 60; 60].
Proof.
  destruct (calculateCumulativeCashFlow_spec [-100; 60; 60]) as (_ & _ & H).
  apply H. discriminate.
Defined.

(** ** Payback period: bounds *)

Lemma split_first_nonneg (c : list number) :
  Forall (fun y => y < 0) c
  \/ exists pre x post,
       c = pre ++ x :: post /\ Forall (fun y => y < 0) pre /\ 0 <= x.
Proof.
  induction c as [|y c IH].
  - left. constructor.
  - destruct (Qlt_le_dec y 0) as [Hneg | Hpos].
    + destruct IH as [Hall | (pre & x & post & -> & Hpre & Hx)].
      * left. now constructor.
      * right. exists (y :: pre), x, post. repeat split; [now constructor | exact Hx].
    + right. exists [], y, c. repeat split; [constructor | exact Hpos].
Qed.

Lemma interpolation_fraction p x :
  p < 0 -> 0 <= x -> 0 < Math_abs p / (x - p) <= 1.
Proof.
  intros Hp Hx. unfold Math_abs.
  rewrite (Qabs_neg p) by lra.
  split.
  - apply Qlt_shift_div_l; lra.
  - apply Qle_shift_div_r; lra.
Qed.

Lemma of_int_length_nonneg {A : Type} (l : list A) : 0 <= of_int (Z.of_nat (length l)).
Proof.
  unfold of_int. change 0 with (inject_Z 0). rewrite <- Zle_Qle. lia.
Qed.

(** At the first non-negative entry, of index [length pre + 1], the payback
    lies in the year that ends there. *)
Lemma payback_in_year pre p x post :
  Forall (fun y => y < 0) (pre ++ [p]) -> 0 <= x ->
  of_int (Z.of_nat (length pre))
  < calculatePaybackPeriod (pre ++ p :: x :: post)
  <= of_int (Z.of_nat (length pre)) + 1.
Proof.
  intros Hneg Hx.
  destruct (calculatePaybackPeriod_interpolate pre p x post Hneg Hx) as [_ ->].
  assert (Hp : p < 0).
  { apply Forall_app in Hneg as [_ Hp]. now inversion Hp. }
  pose proof (interpolation_fraction p x Hp Hx). lra.
Qed.

Lemma payback_within_series c :
  c <> [] -> 0 <= calculatePaybackPeriod c <= of_int (Z.of_nat (length c)) - 1.
Proof.
  intros Hne.
  destruct (split_first_nonneg c) as [Hall | (pre & x & post & -> & Hpre & Hx)].
  - rewrite (calculatePaybackPeriod_never c Hall).
    destruct c as [|y c]; [contradiction|].
    cbn [length]. rewrite Nat2Z.inj_succ. unfold Z.succ, of_int.
    rewrite inject_Z_plus.
    pose proof (of_int_length_nonneg c) as Hlen. unfold of_int in Hlen.
    change (inject_Z 1) with 1. lra.
  - destruct pre as [|q pre] using rev_ind.
    + cbn [app]. rewrite (calculatePaybackPeriod_first x post Hx).
      cbn [length]. rewrite Nat2Z.inj_succ. unfold Z.succ, of_int.
      rewrite inject_Z_plus.
      pose proof (of_int_length_nonneg post) as Hlen. unfold of_int in Hlen.
      change (inject_Z 1) with 1. lra.
    + clear IHpre. rewrite <- app_assoc. cbn [app].
      pose proof (payback_in_year pre q x post Hpre Hx) as Hb.
      pose proof (of_int_length_nonneg pre) as Hlen0.
      replace (Z.of_nat (length (pre ++ q :: x :: post)))
        with (Z.of_nat (length pre) + (2 + Z.of_nat (length post)))%Z
        by (rewrite length_app; cbn [length]; lia).
      unfold of_int in *. rewrite !inject_Z_plus.
      pose proof (of_int_length_nonneg post) as Hlen. unfold of_int in Hlen.
      change (inject_Z 2) with 2. lra.
Qed.

(** The payback period of a non-empty series lies between 0 and the last
    index; when the first non-negative entry has index [i >= 1], the payback
    lies in the year that ends at [i]: [i - 1 <= payback <= i]. *)
Theorem calculatePaybackPeriod_bounds :
  (forall c, c <> [] ->
     0 <= calculatePaybackPeriod c <= of_int (Z.of_nat (length c)) - 1)
  /\ (forall pre p x post,
        Forall (fun y => y < 0) (pre ++ [p]) -> 0 <= x ->
        of_int (Z.of_nat (length pre))
        <= calculatePaybackPeriod (pre ++ p :: x :: post)
        <= of_int (Z.of_nat (length pre)) + 1).
Proof.
  split.
  - intros c Hne. now apply payback_within_series.
  - intros pre p x post Hneg Hx.
    destruct (payback_in_year pre p x post Hneg Hx) as [Hlo Hhi].
    split; [now apply Qlt_le_weak | exact Hhi].
Qed.

Lemma calculatePaybackPeriod_bounds_witness :
  0 <= calculatePaybackPeriod [-100; -40; 20; 80] <= of_int 4 - 1.
Proof.
  destruct calculatePaybackPeriod_bounds as [H _].
  apply (H [-100; -40; 20; 80]). discriminate.
Defined.

(** ** A horizon of zero years *)

(** With [projectYears <= 0] the loops do not run: the series is the single
    entry [-capex], and the metrics are returned with [npv = -capex],
    [irr = 0] and [paybackPeriod = 0]. *)
Theorem zero_horizon (data : ProjectData) :
  (projectYears data <= 0)%Z ->
  calculateNetCashFlow data = [- calculateCapexTotal (capexItems data)]
  /\ calculateDiscountFactors (projectYears data) (discountRate data) = [1.0]
  /\ exists m,
       calculateFinancialMetrics data = Some m
       /\ npv m == - sum_totals (capexItems data)
       /\ irr m = 0
       /\ paybackPeriod m == 0.
Proof.
  intros Hn.
  assert (Hz : Z.to_nat (projectYears data) = 0%nat) by lia.
  assert (Hcf : calculateNetCashFlow data = [- calculateCapexTotal (capexItems data)]).
  { rewrite calculateNetCashFlow_closed, Hz. reflexivity. }
  assert (Hdf : calculateDiscountFactors (projectYears data) (discountRate data) = [1.0]).
  { rewrite calculateDiscountFactors_closed, Hz. reflexivity. }
  split; [exact Hcf|]. split; [exact Hdf|].
  eexists. split; [apply calculateFinancialMetrics_Some|].
  cbn [npv irr paybackPeriod].
  unfold projectNPV, discountedCashflows_of. rewrite Hcf, Hdf.
  cbn [zip_with]. split; [|split].
  - rewrite calculateNPV_sum. unfold Qsum. cbn [fold_right].
    rewrite discount_entry_one, calculateCapexTotal_sum. ring.
  - reflexivity.
  - rewrite calculateCumulativeCashFlow_running. cbn [running_from].
    unfold calculatePaybackPeriod. cbn [length payback_loop nth_error].
    destruct (Qle_bool 0 (0 + discount_entry (- calculateCapexTotal (capexItems data)) 1.0));
      reflexivity.
Qed.

Lemma zero_horizon_witness :
  calculateNetCashFlow
    {| capexItems := [item 1 1000]; opexCashIn := [item 1 500]; opexCashOut := [];
       projectYears := 0; discountRate := 12; opexInGrowth := 0; opexOutGrowth := 0 |}
  = [- calculateCapexTotal [item 1 1000]].
Proof.
  apply (zero_horizon
           {| capexItems := [item 1 1000]; opexCashIn := [item 1 500]; opexCashOut := [];
              projectYears := 0; discountRate := 12; opexInGrowth := 0;
              opexOutGrowth := 0 |}).
  cbn. lia.
Defined.

(** ** The net present value in closed form *)

Lemma Qsum_map_eq {A : Type} (f g : A -> number) (l : list A) :
  (forall k, In k l -> f k == g k) -> Qsum (map f l) == Qsum (map g l).
Proof.
  intros H. apply Qle_antisym; apply Qsum_map_le; intros k Hk;
    rewrite (H k Hk); apply Qle_refl.
Qed.



(** At a discount rate of exactly -100 percent every factor after year 0 is
    zero, the guard [df !== 0] replaces each of those quotients by 0, and the
    [npv] is the negated capital expenditure. *)
Theorem metrics_npv_rate_minus_100 (data : ProjectData) :
  discountRate data == -100 ->
  exists m,
    calculateFinancialMetrics data = Some m
    /\ npv m == - sum_totals (capexItems data).
Proof.
  intros Hr.
  eexists. split; [apply calculateFinancialMetrics_Some|].
  cbn [npv].
  rewrite projectNPV_closed, calculateCapexTotal_sum.
  assert (Hzero : Qsum (map (fun k => discount_entry (yearlyNet data k)
                                         (Math_pow (1 + discountRate data / 100) k))
                          (zrange 1 (Z.to_nat (projectYears data))))
                  == Qsum (map (fun _ => 0) (zrange 1 (Z.to_nat (projectYears data))))).
  { apply Qsum_map_eq. intros k Hk. apply In_zrange in Hk.
    unfold discount_entry, Math_pow.
    assert (Hbase : 1 + discountRate data / 100 == 0) by (rewrite Hr; reflexivity).
    assert (Hpow : (1 + discountRate data / 100) ^ k == 0).
    { rewrite Hbase. apply Qpower_0. lia. }
    now rewrite (Qeq_eq_bool _ _ Hpow). }
  rewrite Hzero.
  assert (Hall : Qsum (map (fun _ : Z => 0) (zrange 1 (Z.to_nat (projectYears data)))) == 0).
  { generalize (zrange 1 (Z.to_nat (projectYears data))).
    intros l. unfold Qsum. induction l as [|k l IH]; cbn [map fold_right]; [reflexivity|].
    rewrite IH. ring. }
  rewrite Hall. ring.
Qed.

Lemma metrics_npv_rate_minus_100_witness :
  exists m,
    calculateFinancialMetrics
      {| capexItems := [item 1 1000]; opexCashIn := [item 1 500]; opexCashOut := [];
         projectYears := 2; discountRate := -100; opexInGrowth := 0; opexOutGrowth := 0 |}
    = Some m
    /\ npv m == - sum_totals [item 1 1000].
Proof.
  apply (metrics_npv_rate_minus_100
           {| capexItems := [item 1 1000]; opexCashIn := [item 1 500]; opexCashOut := [];
              projectYears := 2; discountRate := -100; opexInGrowth := 0;
              opexOutGrowth := 0 |}).
  reflexivity.
Defined.

(** ** Internal rate of return: the sums of the inner loop *)

(** For a guess of the interval [[-0.99, 10]], in which every guess of the
    iteration lies, the inner loop computes [f(guess)], the sum of
    [cf_j / (1+guess)^j], and [f'(guess)], the sum of
    [-j * cf_j / (1+guess)^(j+1)].  A series of fewer
    than two entries has rate 0; a series of at least two entries whose
    [f(0.1)] is within [1e-6] of zero (the zero series among them) has the
    initial guess [0.1] as its rate. *)
Theorem calculateIRR_sums_and_root :
  (forall guess cashflows,
     -0.99 <= guess <= 10 ->
     fst (irr_sums guess 0 cashflows (0, 0))
     == Qsum (zip_with (fun j cf => cf / (1 + guess) ^ j)
                (zrange 0 (length cashflows)) cashflows)
     /\ snd (irr_sums guess 0 cashflows (0, 0))
        == - Qsum (zip_with (fun j cf => inject_Z j * cf / (1 + guess) ^ (j + 1))
                     (zrange 0 (length cashflows)) cashflows))
  /\ (forall cashflows, (length cashflows < 2)%nat -> calculateIRR cashflows = 0)
  /\ (forall cashflows,
        (2 <= length cashflows)%nat ->
        Qabs (Qsum (zip_with (fun j cf => cf / (1 + 0.1) ^ j)
                      (zrange 0 (length cashflows)) cashflows)) < 1e-6 ->
        calculateIRR cashflows = 0.1).
Proof.
  split; [|split].
  - intros guess cashflows _.
    destruct (irr_sums_closed guess cashflows 0 0 0) as [H1 H2].
    rewrite H1, H2. split; ring.
  - intros cashflows Hlen. unfold calculateIRR.
    now rewrite (proj2 (Nat.ltb_lt _ _) Hlen).
  - intros cashflows Hlen Hroot. unfold calculateIRR.
    rewrite (proj2 (Nat.ltb_ge _ _) Hlen).
    apply irr_loop_converged.
    destruct (irr_sums_closed 0.1 cashflows 0 0 0) as [H1 _].
    rewrite H1.
    assert (E : forall s, 0 + s == s) by (intros; ring).
    now rewrite E.
Qed.

Lemma calculateIRR_sums_and_root_witness :
  calculateIRR [5] = 0 /\ calculateIRR [-2000; 2200] = 0.1.
Proof.
  destruct calculateIRR_sums_and_root as (_ & Hshort & Hroot).
  split.
  - apply Hshort. cbn. lia.
  - apply Hroot; [cbn; lia | reflexivity].
Defined.

(** ** Discount factors *)

(** For a rate [r >= 0] there is one discount factor per year [0..n], the
    first is 1, and the factors never decrease: of two consecutive factors
    the first is at least 1 and at most the second. *)
Theorem calculateDiscountFactors_increasing (n : Z) (r : number) :
  0 <= r ->
  length (calculateDiscountFactors n r) = Datatypes.S (Z.to_nat n)
  /\ nth_error (calculateDiscountFactors n r) 0 = Some 1.0
  /\ (forall i df df',
        nth_error (calculateDiscountFactors n r) i = Some df ->
        nth_error (calculateDiscountFactors n r) (Datatypes.S i) = Some df' ->
        1 <= df <= df').
Proof.
  intros Hr.
  split; [apply length_calculateDiscountFactors|].
  split; [now rewrite calculateDiscountFactors_closed|].
  intros i df df' Hi Hi'.
  rewrite calculateDiscountFactors_closed in Hi, Hi'.
  assert (Hbase : 1 <= 1 + r / 100).
  { change (r / 100) with (r * (1 # 100)). lra. }
  assert (Hdf' : df' = (1 + r / 100) ^ Z.of_nat (Datatypes.S i)).
  { cbn [nth_error] in Hi'. rewrite nth_error_map in Hi'.
    destruct (nth_error (zrange 1 (Z.to_nat n)) i) as [k|] eqn:Ek; [|discriminate].
    assert (Hlt : (i < Z.to_nat n)%nat).
    { rewrite <- (length_zrange (Z.to_nat n) 1). apply nth_error_Some. congruence. }
    rewrite nth_error_zrange in Ek by exact Hlt.
    injection Ek as <-. cbn in Hi'. injection Hi' as <-.
    unfold Math_pow. f_equal. lia. }
  assert (Hdf : df == (1 + r / 100) ^ Z.of_nat i).
  { destruct i as [|i].
    - cbn in Hi. injection Hi as <-. reflexivity.
    - cbn [nth_error] in Hi. rewrite nth_error_map in Hi.
      destruct (nth_error (zrange 1 (Z.to_nat n)) i) as [k|] eqn:Ek; [|discriminate].
      assert (Hlt : (i < Z.to_nat n)%nat).
      { rewrite <- (length_zrange (Z.to_nat n) 1). apply nth_error_Some. congruence. }
      rewrite nth_error_zrange in Ek by exact Hlt.
      injection Ek as <-. cbn in Hi. injection Hi as <-.
      unfold Math_pow.
      replace (1 + Z.of_nat i)%Z with (Z.of_nat (Datatypes.S i)) by lia.
      reflexivity. }
  assert (Hstep : df' == df * (1 + r / 100)).
  { rewrite Hdf', Hdf, Nat2Z.inj_succ. unfold Z.succ.
    rewrite Qpower_plus' by lia. now rewrite Qpower_1_r. }
  assert (H1 : 1 <= df).
  { rewrite Hdf. apply Qpower_1_le; [exact Hbase | lia]. }
  split; [exact H1|].
  rewrite Hstep.
  assert (Hprod : 0 <= df * (r / 100)).
  { apply Qmult_le_0_compat; [lra|].
    change (r / 100) with (r * (1 # 100)). lra. }
  lra.
Qed.

Lemma calculateDiscountFactors_increasing_witness :
  length (calculateDiscountFactors 3 10) = 4%nat
  /\ nth_error (calculateDiscountFactors 3 10) 0 = Some 1.0.
Proof.
  assert (H : 0 <= 10) by (vm_compute; discriminate).
  destruct (calculateDiscountFactors_increasing 3 10 H) as (Hlen & H0 & _).
  split; [exact Hlen | exact H0].
Defined.

(** ** The cash-flow table *)

Lemma cashFlowData_from_spec cfs : forall i dcfs ccfs dfs,
  (i + length cfs <= length dcfs)%nat ->
  (i + length cfs <= length ccfs)%nat ->
  (i + length cfs <= length dfs)%nat ->
  exists rows,
    cashFlowData_from i cfs dcfs ccfs dfs = Some rows
    /\ length rows = length cfs
    /\ forall k row, nth_error rows k = Some row ->
         year row = Z.of_nat (i + k)
         /\ nth_error cfs k = Some (cashFlow row)
         /\ nth_error dcfs (i + k) = Some (discountedCashFlow row)
         /\ nth_error ccfs (i + k) = Some (cumulativeCashFlow row)
         /\ nth_error dfs (i + k) = Some (discountFactor row).
Proof.
  induction cfs as [|cf rest IH]; intros i dcfs ccfs dfs H1 H2 H3;
    cbn [cashFlowData_from length] in *.
  - exists []. split; [reflexivity|]. split; [reflexivity|].
    intros [|k] row Hrow; discriminate Hrow.
  - destruct (lookup_lt_is_Some_2 dcfs i ltac:(lia)) as [dcf Hdcf].
    destruct (lookup_lt_is_Some_2 ccfs i ltac:(lia)) as [ccf Hccf].
    destruct (lookup_lt_is_Some_2 dfs i ltac:(lia)) as [df Hdf].
    rewrite <- nth_error_lookup in Hdcf, Hccf, Hdf.
    rewrite Hdcf, Hccf, Hdf.
    destruct (IH (Datatypes.S i) dcfs ccfs dfs ltac:(lia) ltac:(lia) ltac:(lia))
      as (rows & -> & Hlen & Hrows).
    eexists. split; [reflexivity|]. split; [cbn [length]; now rewrite Hlen|].
    intros [|k] row Hrow; cbn [nth_error] in Hrow.
    + injection Hrow as <-. cbn [year cashFlow discountedCashFlow cumulativeCashFlow
                                   discountFactor nth_error].
      rewrite Nat.add_0_r. auto.
    + destruct (Hrows k row Hrow) as (Hy & Hc & Hd & Hcc & Hf).
      replace (i + Datatypes.S k)%nat with (Datatypes.S i + k)%nat by lia.
      cbn [nth_error]. auto.
Qed.

(** [calculateCashFlowData] returns one row per year [0..projectYears]; row
    [k] carries the year [k] and the [k]-th entries of the four series: its
    discounted cash flow is the cash flow divided by the discount factor
    (0 when the factor is 0), its cumulative cash flow is the sum of the
    discounted cash flows of the years [0..k], and in the last row that sum
    is the net present value. *)
Theorem calculateCashFlowData_rows (data : ProjectData) :
  exists rows,
    calculateCashFlowData data = Some rows
    /\ length rows = Datatypes.S (Z.to_nat (projectYears data))
    /\ (forall k row, nth_error rows k = Some row ->
          year row = Z.of_nat k
          /\ nth_error (calculateNetCashFlow data) k = Some (cashFlow row)
          /\ nth_error (calculateDiscountFactors (projectYears data) (discountRate data)) k
             = Some (discountFactor row)
          /\ discountedCashFlow row = discount_entry (cashFlow row) (discountFactor row)
          /\ cumulativeCashFlow row
             == Qsum (firstn (Datatypes.S k) (discountedCashflows_of data))
          /\ (k = Z.to_nat (projectYears data) ->
              cumulativeCashFlow row == projectNPV data)).
Proof.
  unfold calculateCashFlowData.
  assert (Hlens : length (calculateNetCashFlow data)
                  = length (calculateDiscountFactors (projectYears data) (discountRate data))).
  { now rewrite length_calculateNetCashFlow, length_calculateDiscountFactors. }
  rewrite calculateDiscountedCashFlow_zip by lia.
  fold (discountedCashflows_of data).
  assert (Hlz : length (discountedCashflows_of data) = length (calculateNetCashFlow data)).
  { unfold discountedCashflows_of. now apply length_zip_with_l_eq. }
  destruct (cashFlowData_from_spec (calculateNetCashFlow data) 0
              (discountedCashflows_of data)
              (calculateCumulativeCashFlow (discountedCashflows_of data))
              (calculateDiscountFactors (projectYears data) (discountRate data)))
    as (rows & Hrows & Hlen & Hrow).
  { cbn. lia. }
  { cbn. rewrite calculateCumulativeCashFlow_running, length_running_from. lia. }
  { cbn. lia. }
  exists rows. split; [exact Hrows|].
  split; [now rewrite Hlen, length_calculateNetCashFlow|].
  intros k row Hk.
  destruct (Hrow k row Hk) as (Hy & Hc & Hd & Hcc & Hf). cbn [Nat.add] in *.
  assert (Hcum : cumulativeCashFlow row
                 == Qsum (firstn (Datatypes.S k) (discountedCashflows_of data))).
  { rewrite calculateCumulativeCashFlow_running in Hcc.
    apply nth_error_running_from in Hcc. rewrite Hcc. ring. }
  split; [exact Hy|]. split; [exact Hc|]. split; [exact Hf|].
  split; [|split; [exact Hcum|]].
  - unfold discountedCashflows_of in Hd. rewrite nth_error_lookup in Hd.
    apply lookup_zip_with_Some in Hd as (c & f & Heq & Hc' & Hf').
    rewrite <- nth_error_lookup in Hc', Hf'.
    rewrite Hc in Hc'. rewrite Hf in Hf'.
    injection Hc' as <-. injection Hf' as <-. exact Heq.
  - intros ->. rewrite Hcum.
    rewrite firstn_all2 by (rewrite Hlz, length_calculateNetCashFlow; lia).
    unfold projectNPV. now rewrite calculateNPV_sum.
Qed.

(** ** Present values and the ranges of the sensitivity analysis *)

Lemma discount_entry_wd a b d : a == b -> discount_entry a d == discount_entry b d.
Proof.
  intros H. unfold discount_entry.
  destruct (negb (Qeq_bool d 0)); [now rewrite H | reflexivity].
Qed.

Lemma discount_entry_minus a b d :
  discount_entry (a - b) d == discount_entry a d - discount_entry b d.
Proof.
  unfold discount_entry. destruct (Qeq_bool d 0) eqn:E; cbn [negb]; [ring|].
  apply Qeq_bool_neq in E. field. exact E.
Qed.

Lemma discount_entry_scale c a d :
  discount_entry (c * a) d == c * discount_entry a d.
Proof.
  unfold discount_entry. destruct (Qeq_bool d 0) eqn:E; cbn [negb]; [ring|].
  apply Qeq_bool_neq in E. field. exact E.
Qed.

Lemma Qsum_map_minus {A : Type} (f g : A -> number) (l : list A) :
  Qsum (map (fun k => f k - g k) l) == Qsum (map f l) - Qsum (map g l).
Proof.
  unfold Qsum. induction l as [|x l IH]; cbn [map fold_right]; [ring|].
  rewrite IH. ring.
Qed.

Lemma Qsum_map_scale {A : Type} (c : number) (f : A -> number) (l : list A) :
  Qsum (map (fun k => c * f k) l) == c * Qsum (map f l).
Proof.
  unfold Qsum. induction l as [|x l IH]; cbn [map fold_right]; [ring|].
  rewrite IH. ring.
Qed.

Lemma present_value_scale c base growth rate years :
  present_value (c * base) growth rate years == c * present_value base growth rate years.
Proof.
  unfold present_value. rewrite <- Qsum_map_scale.
  apply Qsum_map_eq. intros k _.
  rewrite <- discount_entry_scale. apply discount_entry_wd. ring.
Qed.

Lemma present_value_wd b1 b2 growth rate years :
  b1 == b2 -> present_value b1 growth rate years == present_value b2 growth rate years.
Proof.
  intros H. unfold present_value. apply Qsum_map_eq. intros k _.
  apply discount_entry_wd. now rewrite H.
Qed.

Lemma present_value_nonneg base growth rate years :
  0 <= base -> -100 <= growth -> -100 <= rate ->
  0 <= present_value base growth rate years.
Proof.
  intros Hb Hg Hr. unfold present_value.
  assert (H0 : Qsum (map (fun _ : Z => 0) (zrange 1 (Z.to_nat years))) == 0).
  { generalize (zrange 1 (Z.to_nat years)). intros l. unfold Qsum.
    induction l as [|x l IH]; cbn [map fold_right]; [reflexivity|].
    rewrite IH. ring. }
  rewrite <- H0. apply Qsum_map_le. intros k _.
  assert (Hd : 0 <= (1 + rate / 100) ^ k).
  { apply Qpower_0_le. change (rate / 100) with (rate * (1 # 100)). lra. }
  assert (Hp : 0 <= base * (1 + growth / 100) ^ k).
  { apply Qmult_le_0_compat; [exact Hb|].
    apply Qpower_0_le. change (growth / 100) with (growth * (1 # 100)). lra. }
  pose proof (discount_entry_mono_cf _ 0 _ Hd Hp) as H.
  assert (Hz : discount_entry 0 ((1 + rate / 100) ^ k) == 0).
  { unfold discount_entry.
    destruct (Qeq_bool ((1 + rate / 100) ^ k) 0) eqn:Eb; cbn [negb]; [reflexivity|].
    apply Qeq_bool_neq in Eb. field. exact Eb. }
  lra.
Qed.

(** The net present value splits into the capital expenditure and the
    present values of the revenue and cost streams. *)
Lemma projectNPV_streams data :
  projectNPV data ==
  - sum_totals (capexItems data)
  + present_value (sum_totals (opexCashIn data)) (opexInGrowth data)
      (discountRate data) (projectYears data)
  - present_value (sum_totals (opexCashOut data)) (opexOutGrowth data)
      (discountRate data) (projectYears data).
Proof.
  rewrite projectNPV_closed, calculateCapexTotal_sum. unfold present_value.
  assert (H : forall a b c, a + b - c == a + (b - c)) by (intros; ring).
  rewrite H, <- Qsum_map_minus.
  apply Qplus_inj_l. apply Qsum_map_eq. intros k _.
  rewrite <- discount_entry_minus. unfold Math_pow.
  apply discount_entry_wd. apply yearlyNet_formula.
Qed.

Lemma projectNPV_scaled_opexCashIn d f :
  projectNPV (set_opexCashIn d (scale_items f (opexCashIn d))) ==
  - sum_totals (capexItems d)
  + f * present_value (sum_totals (opexCashIn d)) (opexInGrowth d)
          (discountRate d) (projectYears d)
  - present_value (sum_totals (opexCashOut d)) (opexOutGrowth d)
      (discountRate d) (projectYears d).
Proof.
  rewrite projectNPV_streams.
  cbn [capexItems opexCashIn opexCashOut opexInGrowth opexOutGrowth discountRate
         projectYears set_opexCashIn].
  rewrite (present_value_wd _ _ _ _ _ (sum_totals_scale f (opexCashIn d))).
  now rewrite present_value_scale.
Qed.

Lemma projectNPV_scaled_opexCashOut d f :
  projectNPV (set_opexCashOut d (scale_items f (opexCashOut d))) ==
  - sum_totals (capexItems d)
  + present_value (sum_totals (opexCashIn d)) (opexInGrowth d)
      (discountRate d) (projectYears d)
  - f * present_value (sum_totals (opexCashOut d)) (opexOutGrowth d)
          (discountRate d) (projectYears d).
Proof.
  rewrite projectNPV_streams.
  cbn [capexItems opexCashIn opexCashOut opexInGrowth opexOutGrowth discountRate
         projectYears set_opexCashOut].
  rewrite (present_value_wd _ _ _ _ _ (sum_totals_scale f (opexCashOut d))).
  now rewrite present_value_scale.
Qed.

Lemma projectNPV_scaled_capexItems d f :
  projectNPV (set_capexItems d (scale_items f (capexItems d))) ==
  - (f * sum_totals (capexItems d))
  + present_value (sum_totals (opexCashIn d)) (opexInGrowth d)
      (discountRate d) (projectYears d)
  - present_value (sum_totals (opexCashOut d)) (opexOutGrowth d)
      (discountRate d) (projectYears d).
Proof.
  rewrite projectNPV_streams.
  cbn [capexItems opexCashIn opexCashOut opexInGrowth opexOutGrowth discountRate
         projectYears set_capexItems].
  now rewrite sum_totals_scale.
Qed.

(** ** The base value lies between the two scenarios *)

Lemma opexCashIn_bracket d v :
  0 <= v -> 0 <= sum_totals (opexCashIn d) ->
  -100 <= opexInGrowth d -> -100 <= discountRate d ->
  projectNPV (set_opexCashIn d (scale_items (1 - v) (opexCashIn d))) <= projectNPV d
  /\ projectNPV d <= projectNPV (set_opexCashIn d (scale_items (1 + v) (opexCashIn d))).
Proof.
  intros Hv Hin Hg Hr.
  rewrite !projectNPV_scaled_opexCashIn, projectNPV_streams.
  pose proof (present_value_nonneg _ _ _ (projectYears d) Hin Hg Hr) as Hpv.
  assert (0 <= v * present_value (sum_totals (opexCashIn d)) (opexInGrowth d)
                    (discountRate d) (projectYears d))
    by now apply Qmult_le_0_compat.
  split; lra.
Qed.

Lemma opexCashOut_bracket d v :
  0 <= v -> 0 <= sum_totals (opexCashOut d) ->
  -100 <= opexOutGrowth d -> -100 <= discountRate d ->
  projectNPV (set_opexCashOut d (scale_items (1 + v) (opexCashOut d))) <= projectNPV d
  /\ projectNPV d <= projectNPV (set_opexCashOut d (scale_items (1 - v) (opexCashOut d))).
Proof.
  intros Hv Hout Hg Hr.
  rewrite !projectNPV_scaled_opexCashOut, projectNPV_streams.
  pose proof (present_value_nonneg _ _ _ (projectYears d) Hout Hg Hr) as Hpv.
  assert (0 <= v * present_value (sum_totals (opexCashOut d)) (opexOutGrowth d)
                    (discountRate d) (projectYears d))
    by now apply Qmult_le_0_compat.
  split; lra.
Qed.

Lemma capexItems_bracket d v :
  0 <= v -> 0 <= sum_totals (capexItems d) ->
  projectNPV (set_capexItems d (scale_items (1 + v) (capexItems d))) <= projectNPV d
  /\ projectNPV d <= projectNPV (set_capexItems d (scale_items (1 - v) (capexItems d))).
Proof.
  intros Hv Hcapex.
  rewrite !projectNPV_scaled_capexItems, projectNPV_streams.
  assert (0 <= v * sum_totals (capexItems d)) by now apply Qmult_le_0_compat.
  split; lra.
Qed.

Lemma discountRate_bracket d v :
  0 <= v -> 0.1 <= discountRate d ->
  (forall k, (1 <= k <= projectYears d)%Z -> 0 <= yearlyNet d k) ->
  projectNPV (set_discountRate d (discountRate d * (1 + v))) <= projectNPV d
  /\ projectNPV d
     <= projectNPV (set_discountRate d (Math_max 0.1 (discountRate d * (1 - v)))).
Proof.
  intros Hv Hr Hnet.
  assert (Hprod : 0 <= discountRate d * v) by (apply Qmult_le_0_compat; lra).
  change (projectNPV d) with (projectNPV (set_discountRate d (discountRate d))).
  unfold Math_max.
  pose proof (Q.le_max_l 0.1 (discountRate d * (1 - v))) as Hmax.
  split.
  - apply projectNPV_discountRate_mono; [lra | lra | exact Hnet].
  - apply projectNPV_discountRate_mono; [lra | | exact Hnet].
    apply Q.max_lub; lra.
Qed.

Lemma yearlyNet_nonneg_of_series d :
  (forall i cf, (1 <= i)%nat ->
     nth_error (calculateNetCashFlow d) i = Some cf -> 0 <= cf) ->
  forall k, (1 <= k <= projectYears d)%Z -> 0 <= yearlyNet d k.
Proof.
  intros Hnet k Hk. apply (Hnet (Z.to_nat k)); [lia|].
  now apply nth_error_calculateNetCashFlow_year.
Qed.

(** For a positive variation the [npv] of the unperturbed project lies
    between [npvLow] and [npvHigh] of a record: for Revenue and Operating
    Costs when every item of the scaled collection has a non-negative volume
    and price and its growth and the discount rate are at least -100, for
    Initial Investment when every item of [capexItems] has a non-negative
    volume and price, and for Discount Rate when no yearly net cash flow is
    negative and the rate is at least 0.1. *)
Theorem base_npv_bracket (data : loc) (variation : number) (h : heap)
  (d : ProjectData) :
  read_ProjectData data h = Some (d, h) ->
  0 < variation ->
  exists results h' rs m,
    performSensitivityAnalysis data variation h = Some (results, h')
    /\ h' !! results = Some (ObjResults rs)
    /\ calculateFinancialMetrics d = Some m
    /\ (forall r, In r rs -> variable r = "Revenue"%string ->
          nonneg_items (opexCashIn d) ->
          -100 <= opexInGrowth d -> -100 <= discountRate d ->
          npvLow r <= npv m <= npvHigh r)
    /\ (forall r, In r rs -> variable r = "Operating Costs"%string ->
          nonneg_items (opexCashOut d) ->
          -100 <= opexOutGrowth d -> -100 <= discountRate d ->
          npvLow r <= npv m <= npvHigh r)
    /\ (forall r, In r rs -> variable r = "Initial Investment"%string ->
          nonneg_items (capexItems d) ->
          npvLow r <= npv m <= npvHigh r)
    /\ (forall r, In r rs -> variable r = "Discount Rate"%string ->
          (forall i cf, (1 <= i)%nat ->
             nth_error (calculateNetCashFlow d) i = Some cf -> 0 <= cf) ->
          0.1 <= discountRate d ->
          npvLow r <= npv m <= npvHigh r).
Proof.
  intros Hd Hv.
  destruct (performSensitivityAnalysis_runs data variation h d Hd)
    as (results & h' & Hrun & -> & k & ->).
  eexists (length h), _, (Array_sort by_range_desc (sensitivity_rows d variation)), _.
  assert (Hv' : 0 <= variation / 100).
  { change (variation / 100) with (variation * (1 # 100)). lra. }
  split; [exact Hrun|].
  split; [now apply list_lookup_middle|].
  split; [apply calculateFinancialMetrics_Some|].
  cbn [npv].
  split; [|split; [|split]].
  - intros r Hr Hname Hin Hg Hrate. apply In_sensitivity_rows in Hr.
    destruct Hr as [<- | [<- | [<- | [<- | []]]]]; try discriminate Hname.
    cbn [npvHigh npvLow].
    apply opexCashIn_bracket; [exact Hv' | now apply sum_totals_nonneg | exact Hg | exact Hrate].
  - intros r Hr Hname Hout Hg Hrate. apply In_sensitivity_rows in Hr.
    destruct Hr as [<- | [<- | [<- | [<- | []]]]]; try discriminate Hname.
    cbn [npvHigh npvLow].
    apply opexCashOut_bracket; [exact Hv' | now apply sum_totals_nonneg | exact Hg | exact Hrate].
  - intros r Hr Hname Hcapex. apply In_sensitivity_rows in Hr.
    destruct Hr as [<- | [<- | [<- | [<- | []]]]]; try discriminate Hname.
    cbn [npvHigh npvLow].
    apply capexItems_bracket; [exact Hv' | now apply sum_totals_nonneg].
  - intros r Hr Hname Hnet Hrate. apply In_sensitivity_rows in Hr.
    destruct Hr as [<- | [<- | [<- | [<- | []]]]]; try discriminate Hname.
    cbn [npvHigh npvLow].
    apply discountRate_bracket; [exact Hv' | exact Hrate |].
    now apply yearlyNet_nonneg_of_series.
Qed.

Lemma example_project_nets :
  forall i cf, (1 <= i)%nat ->
    nth_error (calculateNetCashFlow example_project) i = Some cf -> 0 <= cf.
Proof.
  intros i cf Hi Hcf.
  destruct i as [|i]; [lia|].
  do 3 (destruct i as [|i];
        [vm_compute in Hcf; inversion Hcf; subst; vm_compute; discriminate|]).
  vm_compute in Hcf. destruct i; discriminate Hcf.
Qed.

Lemma base_npv_bracket_witness :
  exists results h' rs m,
    performSensitivityAnalysis example_data 20 example_store = Some (results, h')
    /\ h' !! results = Some (ObjResults rs)
    /\ calculateFinancialMetrics example_project = Some m
    /\ (forall r, In r rs -> variable r = "Discount Rate"%string ->
          npvLow r <= npv m <= npvHigh r).
Proof.
  assert (Hpos : 0 < 20) by reflexivity.
  destruct (base_npv_bracket example_data 20 example_store example_project
              example_store_reads Hpos)
    as (results & h' & rs & m & Hrun & Hrs & Hm & _ & _ & _ & Hrate).
  exists results, h', rs, m.
  split; [exact Hrun|]. split; [exact Hrs|]. split; [exact Hm|].
  intros r Hr Hname.
  apply (Hrate r Hr Hname example_project_nets).
  vm_compute. discriminate.
Defined.

(** ** The tornado chart *)




(** ** The decision summary *)

Lemma paybackPeriod_within_horizon d :
  (0 <= projectYears d)%Z ->
  0 <= calculatePaybackPeriod (calculateCumulativeCashFlow (discountedCashflows_of d))
    <= of_int (projectYears d).
Proof.
  intros Hn.
  assert (Hlen : length (calculateCumulativeCashFlow (discountedCashflows_of d))
                 = Datatypes.S (Z.to_nat (projectYears d))).
  { rewrite calculateCumulativeCashFlow_running, length_running_from.
    unfold discountedCashflows_of.
    rewrite length_zip_with_l_eq
      by now rewrite length_calculateNetCashFlow, length_calculateDiscountFactors.
    apply length_calculateNetCashFlow. }
  pose proof (payback_within_series
                (calculateCumulativeCashFlow (discountedCashflows_of d))) as Hb.
  rewrite Hlen in Hb.
  assert (Hne : calculateCumulativeCashFlow (discountedCashflows_of d) <> []).
  { intros E. rewrite E in Hlen. discriminate Hlen. }
  specialize (Hb Hne).
  assert (E : of_int (Z.of_nat (Datatypes.S (Z.to_nat (projectYears d)))) - 1
              == of_int (projectYears d)).
  { rewrite Nat2Z.inj_succ, Z2Nat.id by exact Hn. unfold Z.succ, of_int.
    rewrite inject_Z_plus. change (inject_Z 1) with 1. ring. }
  rewrite E in Hb. exact Hb.
Qed.

(** In the decision summary the payback criterion
    [paybackPeriod <= projectYears] holds for every project with
    [projectYears >= 0], also for one that never recovers its investment
    (whose payback period is reported as [projectYears]).  So at least one
    criterion always passes, the recommendation is ["success"] exactly when
    [npv > 0] and [irr * 100 > discountRate], and ["danger"] exactly when
    neither of the two holds. *)
Theorem decision_payback_always_passes (data : ProjectData) (m : FinancialMetrics) :
  (0 <= projectYears data)%Z ->
  calculateFinancialMetrics data = Some m ->
  map status (decisionCriteria m data)
  = [Qlt_bool 0 (npv m); Qlt_bool (discountRate data) (irr m * 100); true]
  /\ (1 <= passingCriteria m data <= 3)%nat
  /\ (rec_type (getRecommendation m data) = "success"%string
      <-> 0 < npv m /\ discountRate data < irr m * 100)
  /\ (rec_type (getRecommendation m data) = "danger"%string
      <-> npv m <= 0 /\ irr m * 100 <= discountRate data).
Proof.
  intros Hn Hm.
  rewrite calculateFinancialMetrics_Some in Hm. injection Hm as <-.
  pose proof (paybackPeriod_within_horizon data Hn) as [_ Hpb].
  apply Qle_bool_iff in Hpb.
  unfold getRecommendation, passingCriteria, decisionCriteria.
  cbn [map status List.filter npv irr paybackPeriod].
  rewrite Hpb.
  destruct (Qlt_bool 0 (projectNPV data)) eqn:E1;
    destruct (Qlt_bool (discountRate data)
                (calculateIRR (calculateNetCashFlow data) * 100)) eqn:E2;
    cbn [length Nat.eqb rec_type];
    try apply Qlt_bool_true in E1; try apply Qlt_bool_false in E1;
    try apply Qlt_bool_true in E2; try apply Qlt_bool_false in E2;
    (split; [reflexivity|]); (split; [lia|]);
    split; split; try discriminate; try tauto;
    intros [H1 H2]; lra.
Qed.

Lemma decision_payback_always_passes_witness :
  exists m,
    calculateFinancialMetrics loss_project = Some m
    /\ (1 <= passingCriteria m loss_project)%nat.
Proof.
  eexists. split; [apply calculateFinancialMetrics_Some|].
  eapply (decision_payback_always_passes loss_project).
  - cbn. lia.
  - apply calculateFinancialMetrics_Some.
Defined.

(** ** Discounting: the guards *)

Lemma discounted_from_short cashflows : forall i discountFactors,
  (i <= length discountFactors < i + length cashflows)%nat ->
  discounted_from i cashflows discountFactors = None.
Proof.
  induction cashflows as [|cf rest IH]; intros i dfs Hlen; cbn [discounted_from length] in *.
  - lia.
  - destruct (nth_error dfs i) as [df|] eqn:E; [|reflexivity].
    assert (Hi : (i < length dfs)%nat) by (apply nth_error_Some; congruence).
    rewrite IH by lia. reflexivity.
Qed.

(** [calculateDiscountedCashFlow] returns a series of numbers exactly when
    there is a discount factor for every cash flow (a missing factor makes
    the quotient [NaN]); the series then has the length of the cash flows,
    and each entry is 0 where the factor is zero and the quotient of the cash
    flow by the factor elsewhere. *)
Theorem calculateDiscountedCashFlow_entries (cashflows discountFactors : list number) :
  ((length discountFactors < length cashflows)%nat ->
   calculateDiscountedCashFlow cashflows discountFactors = None)
  /\ ((length cashflows <= length discountFactors)%nat ->
      exists discounted,
        calculateDiscountedCashFlow cashflows discountFactors = Some discounted
        /\ length discounted = length cashflows
        /\ forall i cf df dcf,
             nth_error cashflows i = Some cf ->
             nth_error discountFactors i = Some df ->
             nth_error discounted i = Some dcf ->
             (df == 0 -> dcf = 0) /\ (~ df == 0 -> dcf = cf / df)).
Proof.
  split.
  - intros Hlen. apply discounted_from_short. lia.
  - intros Hlen.
    exists (zip_with discount_entry cashflows discountFactors).
    split; [now apply calculateDiscountedCashFlow_zip|].
    split; [apply length_zip_with_l; lia|].
    intros i cf df dcf Hcf Hdf Hdcf.
    rewrite nth_error_lookup in Hcf, Hdf, Hdcf.
    apply lookup_zip_with_Some in Hdcf as (c & f & -> & Hc & Hf).
    rewrite Hcf in Hc. rewrite Hdf in Hf.
    injection Hc as <-. injection Hf as <-.
    unfold discount_entry. split; intros H.
    + now rewrite (Qeq_eq_bool _ _ H).
    + now rewrite (Qeq_bool_false_neq _ _ H).
Qed.

Lemma calculateDiscountedCashFlow_entries_witness :
  calculateDiscountedCashFlow [1; 2; 3] [1; 2] = None
  /\ exists discounted,
       calculateDiscountedCashFlow [10; 20] [0; 4] = Some discounted
       /\ length discounted = 2%nat.
Proof.
  split.
  - apply (calculateDiscountedCashFlow_entries [1; 2; 3] [1; 2]). cbn. lia.
  - destruct (proj2 (calculateDiscountedCashFlow_entries [10; 20] [0; 4]))
      as (dcf & H & Hlen & _).
    + cbn. lia.
    + exists dcf. split; [exact H | exact Hlen].
Defined.

(** ** Doubles: the internal rate of return is [NaN] or in range *)

(** On doubles, whatever [Math.pow] computes and whatever the series, the
    value returned by [calculateIRR] is [NaN] or lies in [[-0.99, 10]]: the
    initial guess, the replacements -0.9 and 0.9 and the two bounds lie in
    the interval, and the two tests after a Newton step let nothing but
    [NaN] through. *)
Theorem calculateIRR_nan_or_within (Math_pow : float -> Z -> float)
  (cashflows : list float) :
  nan_or_within (Double.calculateIRR Math_pow cashflows).
Proof.
  unfold Double.calculateIRR.
  destruct (length cashflows <? 2)%nat.
  - right. split; reflexivity.
  - apply irr_loop_nan_or_within. right. split; reflexivity.
Qed.

(** ** Doubles: the entries of the discounted series *)

(** On doubles [calculateDiscountedCashFlow] returns one entry per cash
    flow.  The entry is [NaN] where the factor is missing, 0 where the
    factor is zero, and the quotient [cf / df] elsewhere; where the factor
    is [Infinity] the entry of a finite cash flow is a zero, and multiplied
    by the factor it is [NaN]. *)
Theorem calculateDiscountedCashFlow_double (cashflows discountFactors : list float) :
  let discounted := Double.calculateDiscountedCashFlow cashflows discountFactors in
  length discounted = length cashflows
  /\ (forall i cf, nth_error cashflows i = Some cf ->
        nth_error discountFactors i = None ->
        nth_error discounted i = Some nan)
  /\ (forall i cf df, nth_error cashflows i = Some cf ->
        nth_error discountFactors i = Some df ->
        nth_error discounted i
        = Some (if (df =? 0)%float then 0%float else (cf / df)%float))
  /\ (forall i cf, nth_error cashflows i = Some cf ->
        Double.finite cf = true ->
        nth_error discountFactors i = Some infinity ->
        exists dcf,
          nth_error discounted i = Some dcf
          /\ (dcf =? 0)%float = true
          /\ (dcf * infinity)%float = nan).
Proof.
  cbv zeta. unfold Double.calculateDiscountedCashFlow.
  split; [apply length_Double_discounted_from|].
  split; [|split].
  - intros i cf Hcf Hdf.
    rewrite (nth_error_Double_discounted_from _ _ 0 i cf Hcf). cbn [Nat.add].
    now rewrite Hdf.
  - intros i cf df Hcf Hdf.
    rewrite (nth_error_Double_discounted_from _ _ 0 i cf Hcf). cbn [Nat.add].
    rewrite Hdf. now destruct (df =? 0)%float.
  - intros i cf Hcf Hfin Hdf.
    rewrite (nth_error_Double_discounted_from _ _ 0 i cf Hcf). cbn [Nat.add].
    rewrite Hdf.
    assert (Hnz : (infinity =? 0)%float = false) by reflexivity.
    rewrite Hnz. cbn [negb].
    exists (cf / infinity)%float. split; [reflexivity|].
    now apply div_mul_infinity.
Qed.

Lemma calculateDiscountedCashFlow_double_witness :
  nth_error (Double.calculateDiscountedCashFlow [-100; 60]%float [1]%float) 1
  = Some nan.
Proof.
  destruct (calculateDiscountedCashFlow_double [-100; 60]%float [1]%float)
    as (_ & Hmissing & _).
  apply (Hmissing 1%nat 60%float); reflexivity.
Defined.
